(** * Image Alt Text Generator: request queue, retry and deduplication core

    A shallow embedding of the extension's content-side core
    (content/stateManager.js, content/imageProcessor.js, utils/apiClient.js,
    utils/imageConverter.js) and of the background message handler
    (background.js), followed by the properties established about them.

    Conventions of the embedding.
    - A JavaScript string is a [string]; one [ascii] stands for one code unit,
      which covers every string the extension builds itself (serialised URLs,
      data URIs, decimal numbers, error messages).
    - JavaScript numbers that the code only uses as integers are [Z] (or [N]
      where the platform type is unsigned); 32-bit wrap-around is written out.
    - A call that completes, and an awaited promise that settles, is a
      [Result]: [Ok v] or [Throw e]. What the browser decides (network
      answers, canvas behaviour, clock) enters every function as an explicit
      argument.
    - Calls to the logging helper have no effect on any state the properties
      talk about and are left out. *)

From Stdlib Require Import Ascii String ZArith QArith DecimalString.
From stdpp Require Import gmap strings list.

Local Open Scope string_scope.
Local Open Scope list_scope.
Local Open Scope Z_scope.

(** ** JavaScript values shared by all modules *)

(** An [Error] object: the two fields the code reads. *)
Record JsError := mkError { name : string; message : string }.

(** [new Error(msg)] *)
Definition Error (msg : string) : JsError := mkError "Error" msg.

(** How a call completes: with a value, or by throwing. Awaiting a promise
    turns fulfilment into the first and rejection into the second, so the same
    type describes what an [await] of a settled promise yields. *)
Inductive Result (A : Type) : Type :=
| Ok (v : A)
| Throw (e : JsError).
Arguments Ok {A} v.
Arguments Throw {A} e.

Module Js.

(** [s.startsWith(p)] *)
Fixpoint startsWith (p s : string) : bool :=
  match p, s with
  | EmptyString, _ => true
  | String a p', String b s' => if Ascii.eqb a b then startsWith p' s' else false
  | String _ _, EmptyString => false
  end.

(** [s.includes(p)] *)
Fixpoint includes (p s : string) : bool :=
  startsWith p s ||
  match s with
  | EmptyString => false
  | String _ s' => includes p s'
  end.

(** [s.indexOf(c)] for a one-character needle; -1 when absent. *)
Fixpoint indexOf_from (c : ascii) (s : string) (i : Z) : Z :=
  match s with
  | EmptyString => -1
  | String a s' => if Ascii.eqb a c then i else indexOf_from c s' (i + 1)
  end.
Definition indexOf (c : ascii) (s : string) : Z := indexOf_from c s 0.

(** Number of occurrences of a character: [(s.match(/c/g) || []).length]. *)
Fixpoint count (c : ascii) (s : string) : Z :=
  match s with
  | EmptyString => 0
  | String a s' => (if Ascii.eqb a c then 1 else 0) + count c s'
  end.

(** [s.length] *)
Definition length (s : string) : Z := Z.of_nat (String.length s).

(** [s.charCodeAt(i)] for every [i], in order. *)
Fixpoint charCodes (s : string) : list Z :=
  match s with
  | EmptyString => []
  | String a s' => Z.of_N (N_of_ascii a) :: charCodes s'
  end.

(** [String(a).repeat(n)] for a single character [a] *)
Fixpoint repeat (a : ascii) (n : nat) : string :=
  match n with
  | O => EmptyString
  | S n' => String a (repeat a n')
  end.

(** Template-literal rendering of a non-negative integer. *)
Definition decimal (n : N) : string := NilEmpty.string_of_uint (N.to_uint n).

(** ToInt32: what [x & x], [x << k] and the other bit operators do to their
    operands and results. *)
Definition toInt32 (x : Z) : Z := (x + 2 ^ 31) mod 2 ^ 32 - 2 ^ 31.

(** [x << k] *)
Definition shl (x k : Z) : Z := toInt32 (Z.shiftl (toInt32 x) k).

(** [x & y] *)
Definition band (x y : Z) : Z := toInt32 (Z.land (toInt32 x) (toInt32 y)).

Definition digit36 (d : Z) : ascii :=
  if d <? 10 then ascii_of_N (Z.to_N (48 + d)) else ascii_of_N (Z.to_N (87 + d)).

Fixpoint radix36 (fuel : nat) (n : Z) (acc : string) : string :=
  match fuel with
  | O => acc
  | S fuel' =>
      let acc' := String (digit36 (n mod 36)) acc in
      if n / 36 =? 0 then acc' else radix36 fuel' (n / 36) acc'
  end.

(** [n.toString(36)] for an integer [n] of at most 64 base-36 digits. *)
Definition toString36 (n : Z) : string :=
  if n <? 0 then String "-" (radix36 64 (- n) "") else radix36 64 n "".

End Js.

(** ** content/stateManager.js *)

Module StateManager.

(** An [<img>] element as the core reads and writes it. [elem] is the
    identity of the DOM object (the key of a WeakMap); the other fields are
    its properties. *)
Record Image := mkImage {
  elem : nat;
  src : string;
  naturalWidth : N;
  naturalHeight : N;
  alt : string;
  title : string
}.

(** The value stored per element by [markProcessed]. *)
Record Processed := mkProcessed { description : string; timestamp : Z }.

Record ProcessedImageTracker := mkTracker {
  processedImages : gmap nat Processed;   (* WeakMap keyed by element *)
  processedHashes : gset string;          (* Set of hashes *)
  inFlight : gset string                  (* Set of hashes *)
}.

(** [new ProcessedImageTracker()] *)
Definition create : ProcessedImageTracker := mkTracker ∅ ∅ ∅.

(** [simpleHash(str)]: [hash = ((hash << 5) - hash) + char; hash = hash & hash]. *)
Definition hashStep (hash char : Z) : Z :=
  let hash1 := (Js.shl hash 5 - hash) + char in
  Js.band hash1 hash1.

Definition simpleHash (str : string) : string :=
  Js.toString36 (fold_left hashStep (Js.charCodes str) 0).

(** [getImageHash(img)]: the key is [`${src}_${naturalWidth}x${naturalHeight}`]. *)
Definition imageKey (img : Image) : string :=
  src img +:+ "_" +:+ Js.decimal (naturalWidth img) +:+ "x"
          +:+ Js.decimal (naturalHeight img).

Definition getImageHash (img : Image) : string := simpleHash (imageKey img).

Definition isProcessed (t : ProcessedImageTracker) (img : Image) : bool :=
  if bool_decide (is_Some (processedImages t !! elem img)) then true
  else if bool_decide (getImageHash img ∈ processedHashes t) then true
  else false.

Definition isInFlight (t : ProcessedImageTracker) (img : Image) : bool :=
  bool_decide (getImageHash img ∈ inFlight t).

Definition markInFlight (t : ProcessedImageTracker) (img : Image)
  : ProcessedImageTracker :=
  mkTracker (processedImages t) (processedHashes t)
            ({[ getImageHash img ]} ∪ inFlight t).

Definition clearInFlight (t : ProcessedImageTracker) (img : Image)
  : ProcessedImageTracker :=
  mkTracker (processedImages t) (processedHashes t)
            (inFlight t ∖ {[ getImageHash img ]}).

(** [markProcessed(img, description)]; [now] is the value of [Date.now()]. *)
Definition markProcessed (t : ProcessedImageTracker) (img : Image)
           (desc : string) (now : Z) : ProcessedImageTracker :=
  let t1 := mkTracker (<[ elem img := mkProcessed desc now ]> (processedImages t))
                      (processedHashes t) (inFlight t) in
  let hash := getImageHash img in
  let t2 := mkTracker (processedImages t1) ({[ hash ]} ∪ processedHashes t1)
                      (inFlight t1) in
  clearInFlight t2 img.

Definition shouldReprocess (t : ProcessedImageTracker) (img : Image) : bool :=
  match processedImages t !! elem img with
  | None => true
  | Some data => negb (String.eqb (alt img) (description data))
  end.

Record TrackerStats := mkTrackerStats { processedCount : nat; inFlightCount : nat }.

Definition getStats (t : ProcessedImageTracker) : TrackerStats :=
  mkTrackerStats (size (processedHashes t)) (size (inFlight t)).

(** [clear()]: empties both hash sets; the WeakMap has no clear and is kept. *)
Definition clear (t : ProcessedImageTracker) : ProcessedImageTracker :=
  mkTracker (processedImages t) ∅ ∅.

(** The mutating operations a running page performs on the shared tracker.
    [clear] is reachable only from the debugging console. *)
Inductive Op :=
| OpMarkInFlight (img : Image)
| OpClearInFlight (img : Image)
| OpMarkProcessed (img : Image) (desc : string) (now : Z).

Definition apply (t : ProcessedImageTracker) (op : Op) : ProcessedImageTracker :=
  match op with
  | OpMarkInFlight img => markInFlight t img
  | OpClearInFlight img => clearInFlight t img
  | OpMarkProcessed img desc now => markProcessed t img desc now
  end.

Definition applyAll (t : ProcessedImageTracker) (ops : list Op)
  : ProcessedImageTracker := fold_left apply ops t.

End StateManager.

(** ** What the browser supplies *)

Module Browser.

(** A [Blob]: its MIME type and what [FileReader.readAsDataURL] makes of it
    ([None] when the reader fires [onerror]). *)
Record Blob := mkBlob { blobType : string; dataUrl : option string }.

(** The head of an HTTP response. *)
Record Response := mkResponse { status : N; statusText : string }.

(** [response.ok]: the status is in the range 200-299. *)
Definition ok (r : Response) : bool :=
  (200 <=? status r)%N && (status r <=? 299)%N.

(** What [await fetch(...)] does: it rejects (network failure, abort), or
    it yields a response whose body, read as a [B], is awaited next. *)
Inductive Fetched (B : Type) : Type :=
| FetchRejects (e : JsError)
| FetchResponds (r : Response) (body : Result B).
Arguments FetchRejects {B} e.
Arguments FetchResponds {B} r body.

(** The rejection of a fetch whose [AbortController] was aborted. *)
Definition AbortError : JsError := mkError "AbortError" "The operation was aborted.".

End Browser.

(** ** utils/imageConverter.js *)

Module ImageConverter.
Import StateManager Browser.

(** What drawing the image on a canvas and exporting it does. *)
Inductive CanvasBehaviour :=
| NoContext                          (* getContext('2d') returns null *)
| CanvasThrows (e : JsError)         (* drawImage or toDataURL throws *)
| CanvasExports (base64 : string).   (* toDataURL('image/jpeg', quality) *)

(** The reply of the background script to a [CONVERT_IMAGE] request. *)
Inductive ProxyReply :=
| ProxyOk (base64 : string)          (* {success: true, base64} *)
| ProxyFail (error : string).        (* {success: false, error} *)

Record Env := mkEnv {
  canvas : Image -> CanvasBehaviour;
  fetch : string -> Fetched Blob;
  (* browser.runtime.sendMessage({type: 'CONVERT_IMAGE', url}); [Ok None]
     is a fulfilment without a response object *)
  sendMessage : string -> Result (option ProxyReply)
}.

Definition imageToBase64Canvas (env : Env) (img : Image) : Result string :=
  match canvas env img with
  | NoContext => Throw (Error "Could not get canvas context")
  | CanvasThrows e => Throw e
  | CanvasExports base64 => Ok base64
  end.

Definition fetchImageAsBase64 (env : Env) (url : string) : Result string :=
  match fetch env url with
  | FetchRejects e => Throw e
  | FetchResponds response body =>
      if negb (ok response)
      then Throw (Error ("Fetch failed: " +:+ Js.decimal (status response)))
      else match body with
           | Throw e => Throw e
           | Ok blob =>
               match dataUrl blob with
               | Some result => Ok result
               | None => Throw (Error "FileReader failed")
               end
           end
  end.

Definition requestBackgroundConversion (env : Env) (url : string) : Result string :=
  match sendMessage env url with
  | Ok (Some (ProxyOk base64)) => Ok base64
  | Ok (Some (ProxyFail error)) =>
      (* response?.error || 'Background conversion failed' *)
      Throw (Error (if String.eqb error "" then "Background conversion failed"
                    else error))
  | Ok None => Throw (Error "Background conversion failed")
  | Throw e => Throw e
  end.

(** The strategies of the fallback chain, logged as they are attempted. *)
Inductive Strategy := Canvas | DirectFetch | BackgroundProxy.

(** [convertImageToBase64(img)]: its result and the strategies it tried. *)
Definition convertImageToBase64 (env : Env) (img : Image)
  : Result string * list Strategy :=
  if String.eqb (src img) "" then (Throw (Error "Invalid image element"), [])
  else if (naturalWidth img =? 0)%N || (naturalHeight img =? 0)%N
  then (Throw (Error "Image not loaded or broken"), [])
  else if Js.startsWith "data:" (src img) then (Ok (src img), [])
  else
    match imageToBase64Canvas env img with
    | Ok base64 => (Ok base64, [Canvas])
    | Throw canvasError =>
        match fetchImageAsBase64 env (src img) with
        | Ok base64 => (Ok base64, [Canvas; DirectFetch])
        | Throw fetchError =>
            match requestBackgroundConversion env (src img) with
            | Ok base64 => (Ok base64, [Canvas; DirectFetch; BackgroundProxy])
            | Throw backgroundError =>
                (Throw (Error ("Image conversion failed: "
                                 +:+ message backgroundError)),
                 [Canvas; DirectFetch; BackgroundProxy])
            end
        end
    end.

(** The chain in the order the source nests its [try] blocks, and the call
    made for each strategy. *)
Definition chain : list Strategy := [Canvas; DirectFetch; BackgroundProxy].

Definition attempt (env : Env) (img : Image) (s : Strategy) : Result string :=
  match s with
  | Canvas => imageToBase64Canvas env img
  | DirectFetch => fetchImageAsBase64 env (src img)
  | BackgroundProxy => requestBackgroundConversion env (src img)
  end.

(** [s.split(c)] *)
Fixpoint split (c : ascii) (s : string) : list string :=
  match s with
  | EmptyString => [EmptyString]
  | String a s' =>
      match split c s' with
      | part :: parts =>
          if Ascii.eqb a c then EmptyString :: part :: parts
          else String a part :: parts
      | [] => [EmptyString]
      end
  end.

(** The capture of [/:(.*?);/]: [.] matches anything but a line break, and
    the lazy star stops at the first semicolon. *)
Definition lineBreak (a : ascii) : bool :=
  Ascii.eqb a "010" || Ascii.eqb a "013".

Fixpoint upToSemicolon (s : string) : option string :=
  match s with
  | EmptyString => None
  | String a s' =>
      if Ascii.eqb a ";" then Some EmptyString
      else if lineBreak a then None
      else String a <$> upToSemicolon s'
  end.

Fixpoint mimeMatch (s : string) : option string :=
  match s with
  | EmptyString => None
  | String a s' =>
      if Ascii.eqb a ":" then
        match upToSemicolon s' with
        | Some mime => Some mime
        | None => mimeMatch s'
        end
      else mimeMatch s'
  end.

(** The [Blob] built from a data URL: its type and its bytes. *)
Record Binary := mkBinary { mime : string; bytes : string }.

(** [base64ToBlob(base64)]; [atob] is the browser's decoder, which throws
    on a string that is not base64. *)
Definition base64ToBlob (atob : string -> Result string) (base64 : string)
  : Result Binary :=
  match split "," base64 with
  | [metadata; data] =>
      match mimeMatch metadata with
      | None => Throw (Error "Could not extract MIME type")
      | Some mime =>
          match atob data with
          | Throw e => Throw e
          | Ok binary => Ok (mkBinary mime binary)
          end
      end
  | _ => Throw (Error "Invalid base64 format")
  end.

(** [Math.ceil(n / 4)] *)
Definition ceilDiv4 (n : Z) : Z := - ((- n) / 4).

Definition getBase64Size (base64 : string) : Z :=
  let padding := Js.count "=" base64 in
  let base64Length := Js.length base64 - Js.indexOf "," base64 - 1 in
  ceilDiv4 (base64Length * 3) - padding.

(** [isWithinSizeLimit(base64, maxSizeMB)]; the quotient is a rational. *)
Definition isWithinSizeLimit (base64 : string) (maxSizeMB : Z) : bool :=
  let sizeBytes := getBase64Size base64 in
  let sizeMB := (inject_Z sizeBytes / inject_Z (1024 * 1024))%Q in
  if negb (Qle_bool sizeMB (inject_Z maxSizeMB)) then false else true.

End ImageConverter.

(** ** utils/apiClient.js *)

Module ApiClient.
Import Browser.

Definition MAX_CONCURRENT_REQUESTS : Z := 3.
Definition BATCH_DELAY_MS : Z := 500.
Definition MAX_RETRIES : nat := 3.
Definition REQUEST_TIMEOUT_MS : Z := 30000.

(** What [response.json()] yields, as far as [sendWithTimeout] looks at it. *)
Inductive Json :=
| JFalsy                              (* null, false, 0 or the empty string *)
| JNoDescription                      (* [typeof data.description] is not 'string' *)
| JDescription (description : string).

(** The [catch] block of [sendWithTimeout]. *)
Definition rethrow {A} (error : JsError) : Result A :=
  if String.eqb (name error) "AbortError" then Throw (Error "Request timeout")
  else Throw error.

(** [sendWithTimeout(formData, timeout)], given what the fetch did; of the
    data it returns only [description], the field its caller reads, is kept.
    The abort that the timer triggers reaches the code as a fetch rejected
    with an error named AbortError. *)
Definition sendWithTimeout (fetched : Fetched Json) : Result string :=
  match fetched with
  | FetchRejects e => rethrow e
  | FetchResponds response body =>
      if negb (ok response)
      then rethrow (Error ("API returned " +:+ Js.decimal (status response)
                             +:+ ": " +:+ statusText response))
      else match body with
           | Throw e => rethrow e
           | Ok (JDescription description) => Ok description
           | Ok _ => rethrow (Error "Invalid API response format")
           end
  end.

(** The browser side of one description request: the decoder behind
    [base64ToBlob] and, per attempt, what the POST of the form data does. *)
Record Env := mkEnv {
  atob : string -> Result string;
  post : nat -> ImageConverter.Binary -> Fetched Json
}.

(** The body of the [try] block of one loop iteration. *)
Definition attemptOnce (env : Env) (base64 : string) (attempt : nat)
  : Result string :=
  match ImageConverter.base64ToBlob (atob env) base64 with
  | Throw e => Throw e
  | Ok blob => sendWithTimeout (post env attempt blob)
  end.

(** The test of the "Don't retry on certain errors" branch. *)
Definition dontRetry (error : JsError) : bool :=
  Js.includes "400" (message error) || Js.includes "Invalid" (message error).

(** [Math.pow(2, attempt - 1) * 1000] *)
Definition waitTime (attempt : nat) : Z := 2 ^ (Z.of_nat attempt - 1) * 1000.

(** What a run of [sendImageToAPI] does besides computing its result. *)
Inductive Event :=
| Attempt (attempt : nat)     (* an iteration of the loop begins *)
| Sleep (ms : Z).             (* await sleep(ms) *)

(** The [for] loop from [attempt] on, with [fuel] iterations left before
    [attempt <= maxRetries] fails, followed by the final [throw]. Reading
    [lastError.message] when no iteration ran is a TypeError. *)
Fixpoint retryLoop (env : Env) (base64 : string) (maxRetries : nat)
         (fuel attempt : nat) (lastError : option JsError)
  : Result string * list Event :=
  match fuel with
  | O =>
      (match lastError with
       | Some e => Throw (Error ("API failed after " +:+ Js.decimal (N.of_nat maxRetries)
                                   +:+ " attempts: " +:+ message e))
       | None => Throw (mkError "TypeError" "lastError is undefined")
       end, [])
  | S fuel' =>
      match attemptOnce env base64 attempt with
      | Ok description => (Ok description, [Attempt attempt])
      | Throw error =>
          if dontRetry error then (Throw error, [Attempt attempt])
          else
            let wait := if (attempt <? maxRetries)%nat
                        then [Sleep (waitTime attempt)] else [] in
            let '(result, events) :=
              retryLoop env base64 maxRetries fuel' (S attempt) (Some error) in
            (result, Attempt attempt :: wait ++ events)
      end
  end.

Definition sendImageToAPI (env : Env) (base64 : string) (maxRetries : nat)
  : Result string * list Event :=
  retryLoop env base64 maxRetries maxRetries 1 None.

(** The events of [count] consecutive failed attempts that are retried,
    beginning with attempt [from]: each is followed by its backoff sleep. *)
Fixpoint failedAttempts (from count : nat) : list Event :=
  match count with
  | O => []
  | S count' =>
      Attempt from :: Sleep (waitTime from) :: failedAttempts (S from) count'
  end.

(** An attempt that fails with an error the loop retries. *)
Definition failsRetryably (env : Env) (base64 : string) (attempt : nat) : Prop :=
  exists e, attemptOnce env base64 attempt = Throw e /\ dontRetry e = false.



(** *** class RequestQueue

    A queue entry [{task, resolve, reject}] is a distinct object per [add]
    call; it is represented by the serial number of that call. *)

Record Stats := mkStats { total : Z; success : Z; failed : Z }.

Record RequestQueue := mkQueue {
  concurrency : Z;
  delayMs : Z;
  queue : list nat;
  active : Z;
  stats : Stats
}.

(** [new RequestQueue(concurrency, delayMs)] *)
Definition create (concurrency delayMs : Z) : RequestQueue :=
  mkQueue concurrency delayMs [] 0 (mkStats 0 0 0).

(** [process()] up to its first suspension. It either returns at once or
    takes the head entry and calls its task: [Some entry] is that call. *)
Definition process (q : RequestQueue) : RequestQueue * option nat :=
  if (concurrency q <=? active q) || (Z.of_nat (length (queue q)) =? 0)
  then (q, None)
  else
    match queue q with
    | entry :: rest =>
        (mkQueue (concurrency q) (delayMs q) rest (active q + 1) (stats q),
         Some entry)
    | [] => (q, None)
    end.

(** [add(task)]: the executor of the returned promise. *)
Definition add (q : RequestQueue) (entry : nat) : RequestQueue * option nat :=
  let st := stats q in
  process (mkQueue (concurrency q) (delayMs q) (queue q ++ [entry]) (active q)
                   (mkStats (total st + 1) (success st) (failed st))).

(** How a resumed [process()] goes on after its task settled. *)
Inductive Resumed :=
| AwaitSleep                      (* suspended on [await sleep(delayMs)] *)
| Recursed (started : option nat). (* called [process()] at once *)

(** The first part of a resumed [process()]: [stats.success++] in the [try]
    block or [stats.failed++] in the [catch] block, then [active--]. *)
Definition counted (q : RequestQueue) (succeeded : bool) : RequestQueue :=
  let st := stats q in
  let st' := if succeeded
             then mkStats (total st) (success st + 1) (failed st)
             else mkStats (total st) (success st) (failed st + 1) in
  mkQueue (concurrency q) (delayMs q) (queue q) (active q - 1) st'.

(** [process()] from the settling of the awaited task to the next
    suspension: the counters, then the test of the queue in [finally]. *)
Definition resume (q : RequestQueue) (succeeded : bool) : RequestQueue * Resumed :=
  let q' := counted q succeeded in
  if 0 <? Z.of_nat (length (queue q'))
  then (q', AwaitSleep)
  else let '(q'', started) := process q' in (q'', Recursed started).

Record QueueStats := mkQueueStats {
  stat_total : Z; stat_success : Z; stat_failed : Z;
  stat_queued : Z; stat_active : Z
}.

Definition getStats (q : RequestQueue) : QueueStats :=
  mkQueueStats (total (stats q)) (success (stats q)) (failed (stats q))
               (Z.of_nat (length (queue q))) (active q).

Definition clear (q : RequestQueue) : RequestQueue :=
  mkQueue (concurrency q) (delayMs q) [] (active q) (stats q).

End ApiClient.

(** ** The request queue on the event loop

    [RequestQueue.process] is an async method: a call runs until it awaits
    the task it started or the pacing sleep, and is resumed later by the event
    loop. A [World] holds the queue object together with the suspended calls
    and the clock; an [Action] is one uninterrupted run of code. The trace and
    the serial counter are bookkeeping for stating properties. *)

Module QueueRun.
Import ApiClient.

(** Which [process()] call started a task. *)
Inductive Origin :=
| ByAdd                        (* the call made by [add] *)
| ByRecursion (after : nat)    (* the call made at once after [after] settled *)
| ByWake (after : nat).        (* the call made after the sleep that followed [after] *)

Inductive Event :=
| Added (entry : nat)
| Started (entry : nat) (origin : Origin)
| Settled (entry : nat) (succeeded : bool) (pending : list nat).

Record World := mkWorld {
  rq : RequestQueue;
  clock : Z;
  awaiting : list nat;           (* calls suspended on [await task()], by task *)
  sleeping : list (nat * Z);     (* calls suspended on [await sleep(delayMs)]:
                                    the task they ran, when the timer is due *)
  issued : nat;                  (* number of [add] calls so far *)
  trace : list (Z * Event)       (* what happened, oldest first, with the time *)
}.

Definition init (concurrency delayMs : Z) : World :=
  mkWorld (create concurrency delayMs) 0 [] [] 0 [].

Inductive Action :=
| Add                                   (* a caller invokes [add(task)] *)
| Settle (entry : nat) (succeeded : bool) (* the promise of a running task settles *)
| Wake (after : nat)                    (* a pacing timer fires *)
| Tick (ms : Z)                         (* time passes *)
| Clear.                                (* [clear()] *)

Fixpoint takeOut (x : nat) (l : list nat) : option (list nat) :=
  match l with
  | [] => None
  | y :: l' => if decide (x = y) then Some l' else (y ::.) <$> takeOut x l'
  end.

Fixpoint takeSleeper (x : nat) (l : list (nat * Z)) : option (Z * list (nat * Z)) :=
  match l with
  | [] => None
  | (y, due) :: l' =>
      if decide (x = y) then Some (due, l')
      else (fun '(d, rest) => (d, (y, due) :: rest)) <$> takeSleeper x l'
  end.

Definition launched (started : option nat) : list nat :=
  match started with Some entry => [entry] | None => [] end.

Definition starts (origin : Origin) (started : option nat) : list Event :=
  match started with Some entry => [Started entry origin] | None => [] end.

Definition at_ (time : Z) (events : list Event) : list (Z * Event) :=
  map (pair time) events.

Definition step (w : World) (a : Action) : option World :=
  match a with
  | Add =>
      let entry := issued w in
      let '(q, started) := add (rq w) entry in
      Some (mkWorld q (clock w) (awaiting w ++ launched started) (sleeping w)
                    (S (issued w))
                    (trace w ++ at_ (clock w) (Added entry :: starts ByAdd started)))
  | Settle entry succeeded =>
      match takeOut entry (awaiting w) with
      | None => None
      | Some others =>
          let settled := Settled entry succeeded (queue (rq w)) in
          match resume (rq w) succeeded with
          | (q, AwaitSleep) =>
              Some (mkWorld q (clock w) others
                            (sleeping w ++ [(entry, clock w + delayMs q)])
                            (issued w)
                            (trace w ++ at_ (clock w) [settled]))
          | (q, Recursed started) =>
              Some (mkWorld q (clock w) (others ++ launched started) (sleeping w)
                            (issued w)
                            (trace w ++ at_ (clock w)
                                   (settled :: starts (ByRecursion entry) started)))
          end
      end
  | Wake after =>
      match takeSleeper after (sleeping w) with
      | None => None
      | Some (due, others) =>
          if due <=? clock w then
            let '(q, started) := process (rq w) in
            Some (mkWorld q (clock w) (awaiting w ++ launched started) others
                          (issued w)
                          (trace w ++ at_ (clock w) (starts (ByWake after) started)))
          else None
      end
  | Tick ms =>
      if 0 <? ms
      then Some (mkWorld (rq w) (clock w + ms) (awaiting w) (sleeping w)
                         (issued w) (trace w))
      else None
  | Clear =>
      Some (mkWorld (clear (rq w)) (clock w) (awaiting w) (sleeping w)
                    (issued w) (trace w))
  end.

Fixpoint run (w : World) (actions : list Action) : option World :=
  match actions with
  | [] => Some w
  | a :: rest =>
      match step w a with
      | Some w' => run w' rest
      | None => None
      end
  end.

Definition isClear (a : Action) : bool :=
  match a with Clear => true | _ => false end.

(** Readings of a trace. *)
Definition startedEntry (e : Z * Event) : option nat :=
  match e with (_, Started entry _) => Some entry | _ => None end.

Definition startOrder (tr : list (Z * Event)) : list nat :=
  omap startedEntry tr.

Definition addedEntry (e : Z * Event) : option nat :=
  match e with (_, Added entry) => Some entry | _ => None end.

Definition addOrder (tr : list (Z * Event)) : list nat :=
  omap addedEntry tr.

Definition isAdded (e : Z * Event) : bool :=
  match e with (_, Added _) => true | _ => false end.

Definition isSettled (succeeded : bool) (e : Z * Event) : bool :=
  match e with (_, Settled _ b _) => Bool.eqb b succeeded | _ => false end.

Fixpoint countZ (f : Z * Event -> bool) (tr : list (Z * Event)) : Z :=
  match tr with
  | [] => 0
  | e :: tr' => (if f e then 1 else 0) + countZ f tr'
  end.

(** The pacing property in its strong reading: a task that was pending
    when some task settled does not start before [delay] has passed since
    that moment. *)
Definition pacedAfterEverySettle (delay : Z) (w : World) : Prop :=
  forall time entry succeeded pending time' entry' origin,
    (time, Settled entry succeeded pending) ∈ trace w ->
    entry' ∈ pending ->
    (time', Started entry' origin) ∈ trace w ->
    time + delay <= time'.

End QueueRun.

(** ** content/imageProcessor.js: processSingleImage *)

Module ImageProcessor.
Import StateManager.

(** How a call of the async function ends. [Suspended] is a call left
    waiting on a promise that never settles. *)
Inductive Completion :=
| Returned
| Threw (e : JsError)
| Suspended.

(** A call's completion, the tracker and the element as it leaves them,
    and the payloads it handed to [processImage], that is, to
    [requestQueue.add]. *)
Record Run := mkRun {
  completion : Completion;
  tracker : ProcessedImageTracker;
  image : Image;
  submitted : list string
}.

(** What the element shows when it is read again. [img] is a live DOM
    element: while a call is suspended on an [await] the page can rewrite
    its locator (lazy loading does), and with it the natural size, or its
    alt and title. It stays the same object. *)
Record Reading := mkReading {
  readSrc : string;
  readWidth : N;
  readHeight : N;
  readAlt : string;
  readTitle : string
}.

Definition reading (img : Image) : Reading :=
  mkReading (src img) (naturalWidth img) (naturalHeight img) (alt img) (title img).

Definition reread (img : Image) (r : Reading) : Image :=
  mkImage (elem img) (readSrc r) (readWidth r) (readHeight r) (readAlt r) (readTitle r).

(** What the element shows at the two resumptions of one
    [processSingleImage] call: when [await convertImageToBase64(img)]
    yields, and when [await processImage(base64)] yields. *)
Record Later := mkLater {
  whenConverted : Reading;
  whenDescribed : Reading
}.

(** The page leaves the element alone during the call. *)
Definition unchanged (img : Image) : Later := mkLater (reading img) (reading img).

(** [img.alt = description; img.title = description] *)
Definition describe (img : Image) (description : string) : Image :=
  mkImage (elem img) (src img) (naturalWidth img) (naturalHeight img)
          description description.

(** The [catch] block; [img] is the element as it is then. *)
Definition catchBlock (t : ProcessedImageTracker) (img : Image) (error : JsError)
           (submitted : list string) : Run :=
  mkRun (Threw error) (clearInFlight t img) img submitted.

(** The function from the point where [await processImage(base64)] yields
    [answer]; [t] is the tracker and [img] the element as they are at that
    moment. *)
Definition afterDescription (now : Z) (t : ProcessedImageTracker) (img : Image)
           (base64 : string) (answer : Result string) : Run :=
  match answer with
  | Ok description =>
      let img' := describe img description in
      mkRun Returned (markProcessed t img' description now) img' [base64]
  | Throw error => catchBlock t img error [base64]
  end.

(** The function from the point where [await convertImageToBase64(img)]
    yields [converted]; [t] is the tracker and [img] the element as they are
    at that moment, [described] what the element shows when the description
    arrives. [api base64] is what the promise of [processImage(base64)]
    does: settle with a result, or never settle. *)
Definition afterConversion (api : string -> option (Result string)) (now : Z)
           (t : ProcessedImageTracker) (img : Image) (described : Reading)
           (converted : Result string)
  : Run :=
  match converted with
  | Throw error => catchBlock t img error []
  | Ok base64 =>
      if negb (ImageConverter.isWithinSizeLimit base64 5)
      then mkRun Returned (clearInFlight t img) img []
      else match api base64 with
           | None => mkRun Suspended t img [base64]
           | Some answer => afterDescription now t (reread img described) base64 answer
           end
  end.

(** [processSingleImage(img)], called on the element as [img] shows it and
    resumed on what [later] shows, run without other code touching the
    tracker while it is suspended. Every tracker operation hashes the element
    as it is when the operation runs: [markInFlight] at the call,
    [clearInFlight] and [markProcessed] at a resumption. The second
    component lists the conversion strategies the call went through. *)
Definition processSingleImage (env : ImageConverter.Env)
           (api : string -> option (Result string)) (now : Z)
           (t : ProcessedImageTracker) (img : Image) (later : Later)
  : Run * list ImageConverter.Strategy :=
  if isProcessed t img then (mkRun Returned t img [], [])
  else if isInFlight t img then (mkRun Returned t img [], [])
  else
    let t1 := markInFlight t img in
    let '(converted, tried) := ImageConverter.convertImageToBase64 env img in
    (afterConversion api now t1 (reread img (whenConverted later))
                     (whenDescribed later) converted,
     tried).

End ImageProcessor.

(** ** background.js *)

Module Background.
Import Browser.

(** The values a message or one of its properties can be, as far as the
    handler looks at them. A message reaches the handler as data (the runtime
    delivers a copy), so reading a property of it returns a value and runs no
    code. Converting a value to a string, as a template literal does, is
    fixed for a primitive; for an object or an array it calls the object's
    own [toString] and [valueOf], which may be missing or not callable
    ([{toString: null}]), and then throws. A number is kept as what the
    handler can tell of it: whether it is truthy (neither 0 nor NaN) and the
    text [String] makes of it ("7", "0.5", "1e+21", "NaN"). *)
Inductive JsVal :=
| VUndefined
| VNull
| VBool (b : bool)
| VNum (nonzero : bool) (text : string)
| VStr (s : string)
| VObject (text : Result string).

(** ToBoolean *)
Definition truthy (v : JsVal) : bool :=
  match v with
  | VUndefined | VNull => false
  | VBool b => b
  | VNum nonzero _ => nonzero
  | VStr s => negb (String.eqb s "")
  | VObject _ => true
  end.

(** The rendering of a value inside a template literal. *)
Definition render (v : JsVal) : Result string :=
  match v with
  | VUndefined => Ok "undefined"
  | VNull => Ok "null"
  | VBool b => Ok (if b then "true" else "false")
  | VNum _ text => Ok text
  | VStr s => Ok s
  | VObject text => text
  end.

(** [v === s] for a string [s] *)
Definition strictEq (v : JsVal) (s : string) : bool :=
  match v with VStr s' => String.eqb s' s | _ => false end.

(** An incoming message: [null], [undefined], or a value whose [type] and
    [url] properties read as given (both [undefined] on a primitive). *)
Inductive Message :=
| MNull
| MUndefined
| MValue (type url : JsVal).

(** The objects [handleMessage] returns. *)
Inductive Reply :=
| ConvertOk (base64 : string)      (* {success: true, base64} *)
| StatsOk                          (* {success: true, stats: {}} *)
| Failure (error : string).        (* {success: false, error} *)

Definition success (r : Reply) : bool :=
  match r with Failure _ => false | _ => true end.

Definition fetchImageAsBase64 (fetch : string -> Fetched Blob) (url : JsVal)
  : Result string :=
  match url with
  | VStr url =>
      match fetch url with
      | FetchRejects e => Throw e
      | FetchResponds response body =>
          if negb (ok response)
          then Throw (Error ("HTTP " +:+ Js.decimal (status response)
                               +:+ ": " +:+ statusText response))
          else match body with
               | Throw e => Throw e
               | Ok blob =>
                   if negb (Js.startsWith "image/" (blobType blob))
                   then Throw (Error ("Not an image: " +:+ blobType blob))
                   else match dataUrl blob with
                        | Some base64 => Ok base64
                        | None => Throw (Error "FileReader failed")
                        end
               end
      end
  | _ => Throw (mkError "TypeError" "url.substring is not a function")
  end.

(** The [switch] inside the [try] block. *)
Definition dispatch (fetch : string -> Fetched Blob) (type url : JsVal)
  : Result Reply :=
  if strictEq type "CONVERT_IMAGE" then
    if negb (truthy url) then Throw (Error "No URL provided")
    else match fetchImageAsBase64 fetch url with
         | Ok base64 => Ok (ConvertOk base64)
         | Throw e => Throw e
         end
  else if strictEq type "GET_STATS" then Ok StatsOk
  else match render type with
       | Ok text => Throw (Error ("Unknown message type: " +:+ text))
       | Throw e => Throw e
       end.

(** [handleMessage(message, sender)]: what awaiting its promise yields. The
    first statement, a log line, reads [message.type] and renders it in a
    template literal before the [try] block is entered: what it throws
    rejects the promise. *)
Definition handleMessage (fetch : string -> Fetched Blob) (msg : Message)
  : Result Reply :=
  match msg with
  | MNull => Throw (mkError "TypeError" "message is null")
  | MUndefined => Throw (mkError "TypeError" "message is undefined")
  | MValue type url =>
      match render type with
      | Throw e => Throw e
      | Ok _ =>
          match dispatch fetch type url with
          | Ok reply => Ok reply
          | Throw error => Ok (Failure (message error))
          end
      end
  end.

End Background.

(** ** Concrete inputs used to exercise the statements *)

Module Samples.
Import StateManager Browser.

Definition cat : Image := mkImage 1 "http://example.com/cat.jpg" 640 480 "" "".
(** The same picture in a re-created element. *)
Definition catAgain : Image := mkImage 2 "http://example.com/cat.jpg" 640 480 "" "".
Definition dog : Image := mkImage 3 "http://example.com/dog.jpg" 800 600 "" "".

(** A lazily loaded picture: the element first shows a preview, and the page
    swaps in the full picture while the call on it is suspended. *)
Definition preview : Image := mkImage 6 "http://example.com/preview.jpg" 320 240 "" "".
Definition fullPicture : ImageProcessor.Reading :=
  ImageProcessor.mkReading "http://example.com/full.jpg" 1600 1200 "" "".
Definition swapped : ImageProcessor.Later :=
  ImageProcessor.mkLater fullPicture fullPicture.
(** Another element showing the preview. *)
Definition previewAgain : Image :=
  mkImage 7 "http://example.com/preview.jpg" 320 240 "" "".

(** A page on which no conversion strategy works. *)
Definition offline : ImageConverter.Env :=
  ImageConverter.mkEnv
    (fun _ => ImageConverter.NoContext)
    (fun _ => FetchRejects (mkError "TypeError" "NetworkError when attempting to fetch resource."))
    (fun _ => Ok None).

(** Eight million letters A: six million bytes by [getBase64Size]. *)
Definition hugePayload : string := Js.repeat "A" (N.to_nat 8000000).

(** A page whose canvas exports [hugePayload]. *)
Definition hugeCanvas : ImageConverter.Env :=
  ImageConverter.mkEnv
    (fun _ => ImageConverter.CanvasExports hugePayload)
    (fun _ => FetchRejects (mkError "TypeError" "NetworkError when attempting to fetch resource."))
    (fun _ => Ok None).

(** A page whose canvas is tainted and whose direct fetch works. *)
Definition crossOrigin : ImageConverter.Env :=
  ImageConverter.mkEnv
    (fun _ => ImageConverter.CanvasThrows (mkError "SecurityError" "The operation is insecure."))
    (fun _ => FetchResponds (mkResponse 200 "OK")
                            (Ok (mkBlob "image/png" (Some "data:image/png;base64,iVBORw0KGgo="))))
    (fun _ => Ok None).

Definition jpeg : string := "data:image/jpeg;base64,AAAA".

(** A description service that answers attempt [n] with [answers n]. *)
Definition service (answers : nat -> Fetched ApiClient.Json) : ApiClient.Env :=
  ApiClient.mkEnv (fun data => Ok data) (fun attempt _ => answers attempt).

Definition respond (code : N) (text : string) (body : ApiClient.Json)
  : Fetched ApiClient.Json :=
  FetchResponds (mkResponse code text) (Ok body).


Definition unavailable : ApiClient.Env :=
  service (fun _ => respond 503 "Service Unavailable" ApiClient.JFalsy).

(** Two 503 answers, then a description. *)
Definition flaky : ApiClient.Env :=
  service (fun attempt =>
             match attempt with
             | 3%nat => respond 200 "OK" (ApiClient.JDescription "a cat on a sofa")
             | _ => respond 503 "Service Unavailable" ApiClient.JFalsy
             end).

(** A 503 answer, then a 400. *)
Definition rejecting : ApiClient.Env :=
  service (fun attempt =>
             match attempt with
             | 2%nat => respond 400 "Bad Request" ApiClient.JFalsy
             | _ => respond 503 "Service Unavailable" ApiClient.JFalsy
             end).

(** Three submissions to a queue of width one, run to the third start. *)
Definition serialActions : list QueueRun.Action :=
  [QueueRun.Add; QueueRun.Add; QueueRun.Add;
   QueueRun.Settle 0 true; QueueRun.Tick 500; QueueRun.Wake 0;
   QueueRun.Settle 1 false; QueueRun.Tick 500; QueueRun.Wake 1].

Definition serialWorld : QueueRun.World :=
  Eval vm_compute in
    default (QueueRun.init 1 500) (QueueRun.run (QueueRun.init 1 500) serialActions).

(** Four submissions to the default queue. Task 0 settles at 100 and task 1
    at 600, both with task 3 pending; the sleep that followed task 0 is over
    at 600 and task 3 starts then. *)
Definition burstActions : list QueueRun.Action :=
  [QueueRun.Add; QueueRun.Add; QueueRun.Add; QueueRun.Add;
   QueueRun.Tick 100; QueueRun.Settle 0 true;
   QueueRun.Tick 500; QueueRun.Settle 1 true;
   QueueRun.Wake 0].

Definition burstWorld : QueueRun.World :=
  Eval vm_compute in
    default (QueueRun.init 3 500) (QueueRun.run (QueueRun.init 3 500) burstActions).

(** The same run continued until every task has settled. *)
Definition drainedActions : list QueueRun.Action :=
  burstActions ++ [QueueRun.Settle 2 false; QueueRun.Settle 3 true;
                   QueueRun.Tick 500; QueueRun.Wake 1].

Definition drainedWorld : QueueRun.World :=
  Eval vm_compute in
    default (QueueRun.init 3 500) (QueueRun.run (QueueRun.init 3 500) drainedActions).

(** A queue of width one: task 0 settles at 100 with task 1 pending, and a
    submission arrives before the clock moves on. *)
Definition lateAddActions : list QueueRun.Action :=
  [QueueRun.Add; QueueRun.Add; QueueRun.Tick 100; QueueRun.Settle 0 true;
   QueueRun.Add].

Definition lateAddWorld : QueueRun.World :=
  Eval vm_compute in
    default (QueueRun.init 1 500) (QueueRun.run (QueueRun.init 1 500) lateAddActions).

(** A network on which every fetch fails. *)
Definition unreachable (url : string) : Fetched Blob :=
  FetchRejects (mkError "TypeError" "NetworkError when attempting to fetch resource.").

(** A description service that answers every payload. *)
Definition answering (base64 : string) : option (Result string) :=
  Some (Ok "a cat on a sofa").

(** The message [{type: {toString: null}}]: its [type] is an object that
    cannot be converted to a string. *)
Definition unprintable : Background.Message :=
  Background.MValue
    (Background.VObject
       (Throw (mkError "TypeError" "can't convert message.type to string")))
    Background.VUndefined.

(** The message [{type: ['CONVERT_IMAGE'], url: 'http://example.com/cat.png'}]:
    its [type] is an array, which renders as its only element. *)
Definition arrayTyped : Background.Message :=
  Background.MValue (Background.VObject (Ok "CONVERT_IMAGE"))
                    (Background.VStr "http://example.com/cat.png").

End Samples.

(** ** The tracker along the orchestrator's code paths *)

Module Flow.
Import StateManager ImageProcessor.

(** The value of [hash] when the loop of [simpleHash] ends. *)
Definition hashValue (str : string) : Z :=
  fold_left hashStep (Js.charCodes str) 0.

(** The polynomial [c0 * 31^(n-1) + ... + c(n-1)] of the code units, computed
    without wrap-around. *)
Definition polynomial (codes : list Z) : Z :=
  fold_left (fun h c => 31 * h + c) codes 0.

(** The head of [processSingleImage], from its call to its first [await]:
    the two deduplication tests and [markInFlight]. The boolean tells whether
    the call goes on to convert the image. *)
Definition enter (t : ProcessedImageTracker) (img : Image)
  : ProcessedImageTracker * bool :=
  if isProcessed t img then (t, false)
  else if isInFlight t img then (t, false)
  else (markInFlight t img, true).

(** [processImages(images)] up to its [await]: [images.filter] with the
    page's [isMeaningfulImage], then [meaningful.map] calls
    [processSingleImage] on each element in array order, and each call runs
    its head before the next one is made. The second component lists the
    images whose calls went on. *)
Fixpoint enterAll (t : ProcessedImageTracker) (images : list Image)
  : ProcessedImageTracker * list Image :=
  match images with
  | [] => (t, [])
  | img :: rest =>
      let '(t1, goes_on) := enter t img in
      let '(t2, admitted) := enterAll t1 rest in
      (t2, if goes_on then img :: admitted else admitted)
  end.

Definition processImages (isMeaningfulImage : Image -> bool)
           (t : ProcessedImageTracker) (images : list Image)
  : ProcessedImageTracker * list Image :=
  enterAll t (List.filter isMeaningfulImage images).

(** The three ways a [processSingleImage] call changes the tracker: its head,
    [clearInFlight] (oversize skip and [catch] block), and [markProcessed]
    after the description was written to the element. Each carries the
    element as it is when the step runs. *)
Inductive Step :=
| Entered (img : Image)
| Cleared (img : Image)
| Marked (img : Image) (description : string) (now : Z).

(** The element a step hashes, as it is when the step runs. *)
Definition stepImage (s : Step) : Image :=
  match s with Entered i | Cleared i | Marked i _ _ => i end.

Definition step (t : ProcessedImageTracker) (s : Step) : ProcessedImageTracker :=
  match s with
  | Entered img => (enter t img).1
  | Cleared img => clearInFlight t img
  | Marked img description now => markProcessed t (describe img description) description now
  end.

Definition steps (t : ProcessedImageTracker) (l : list Step) : ProcessedImageTracker :=
  fold_left step l t.

End Flow.

(** ** More concrete inputs *)

Module Cases.
Import StateManager Browser.

(** Two pictures whose locators differ by "Aa" against "BB". *)
Definition pictureAa : Image := mkImage 4 "http://example.com/Aa.jpg" 640 480 "" "".
Definition pictureBB : Image := mkImage 5 "http://example.com/BB.jpg" 640 480 "" "".

(** The element of [Samples.cat] after the page rewrote its alt text. *)
Definition catRetitled : Image :=
  mkImage 1 "http://example.com/cat.jpg" 640 480 "edited by the page" "a cat on a sofa".

(** Four submissions to the default queue: three start, task 3 waits. *)
Definition fullActions : list QueueRun.Action :=
  [QueueRun.Add; QueueRun.Add; QueueRun.Add; QueueRun.Add].

Definition fullWorld : QueueRun.World :=
  Eval vm_compute in
    default (QueueRun.init 3 500) (QueueRun.run (QueueRun.init 3 500) fullActions).

(** What follows a [clear()] in that state: the running tasks settle and one
    more task is submitted. *)
Definition afterClear : list QueueRun.Action :=
  [QueueRun.Tick 100; QueueRun.Settle 0 true; QueueRun.Add;
   QueueRun.Settle 1 false; QueueRun.Settle 2 true; QueueRun.Settle 4 true].

Definition clearedWorld : QueueRun.World :=
  Eval vm_compute in
    default fullWorld (QueueRun.run fullWorld (QueueRun.Clear :: afterClear)).

End Cases.

(** ** The content script and the background script joined by messaging *)

Module Messaging.
Import Browser.

(** How the promise of [handleMessage] in the background reaches the content
    script as the promise of [browser.runtime.sendMessage]: a reply object is
    delivered as the response, a rejection as a rejection. *)
Inductive delivers : Result Background.Reply
                     -> Result (option ImageConverter.ProxyReply) -> Prop :=
| deliver_base64 base64 :
    delivers (Ok (Background.ConvertOk base64))
             (Ok (Some (ImageConverter.ProxyOk base64)))
| deliver_failure error :
    delivers (Ok (Background.Failure error))
             (Ok (Some (ImageConverter.ProxyFail error)))
| deliver_rejection e :
    delivers (Throw e) (Throw e).

(** The message [requestBackgroundConversion(url)] sends. *)
Definition convertRequest (url : string) : Background.Message :=
  Background.MValue (Background.VStr "CONVERT_IMAGE") (Background.VStr url).

End Messaging.

(** ** Measures of a run of sendImageToAPI *)

Module RetryCost.
Import ApiClient.

(** Number of loop iterations begun. *)
Fixpoint attemptsMade (events : list Event) : nat :=
  match events with
  | [] => 0
  | Attempt _ :: rest => S (attemptsMade rest)
  | Sleep _ :: rest => attemptsMade rest
  end.

(** Total time spent in [sleep], in milliseconds. *)
Fixpoint sleptMs (events : list Event) : Z :=
  match events with
  | [] => 0
  | Attempt _ :: rest => sleptMs rest
  | Sleep ms :: rest => ms + sleptMs rest
  end.

End RetryCost.

(** * Properties *)

(** ** Sanity checks of the embedding on concrete inputs *)

Example simpleHash_abc : StateManager.simpleHash "abc" = "22ci".
Proof. vm_compute. reflexivity. Qed.

(** A hash that wraps around to a negative 32-bit integer. *)
Example getImageHash_cat :
  StateManager.imageKey Samples.cat = "http://example.com/cat.jpg_640x480"
  /\ StateManager.getImageHash Samples.cat = "-7nof78".
Proof. vm_compute. split; reflexivity. Qed.

Example split_data_url :
  ImageConverter.split "," "data:image/jpeg;base64,AAAA" = ["data:image/jpeg;base64"; "AAAA"]
  /\ ImageConverter.mimeMatch "data:image/jpeg;base64" = Some "image/jpeg"
  /\ ImageConverter.getBase64Size "data:image/jpeg;base64,AAA=" = 2.
Proof. vm_compute. repeat split; reflexivity. Qed.

(** ** The deduplication tracker *)

Section TrackerFacts.
Import StateManager.

Lemma getImageHash_same (img img' : Image) :
  src img' = src img ->
  naturalWidth img' = naturalWidth img ->
  naturalHeight img' = naturalHeight img ->
  getImageHash img' = getImageHash img.
Proof.
  intros Hs Hw Hh. unfold getImageHash, imageKey. by rewrite Hs, Hw, Hh.
Qed.

Lemma markProcessed_hashes t img d now :
  processedHashes (markProcessed t img d now)
  = {[ getImageHash img ]} ∪ processedHashes t.
Proof. reflexivity. Qed.

Lemma markProcessed_inFlight t img d now :
  inFlight (markProcessed t img d now) = inFlight t ∖ {[ getImageHash img ]}.
Proof. reflexivity. Qed.

Lemma apply_keeps_hashes t op h :
  h ∈ processedHashes t -> h ∈ processedHashes (apply t op).
Proof. destruct op; simpl; set_solver. Qed.

Lemma applyAll_keeps_hashes ops : forall t h,
  h ∈ processedHashes t -> h ∈ processedHashes (applyAll t ops).
Proof.
  induction ops as [|op ops IH]; intros t h Hin; simpl; [done|].
  apply IH. by apply apply_keeps_hashes.
Qed.

Lemma isProcessed_of_hash t img :
  getImageHash img ∈ processedHashes t -> isProcessed t img = true.
Proof.
  intros Hin. unfold isProcessed.
  destruct (bool_decide (is_Some _)); [done|].
  by rewrite bool_decide_eq_true_2.
Qed.

Lemma clearInFlight_gone t img : getImageHash img ∉ inFlight (clearInFlight t img).
Proof. simpl. rewrite elem_of_difference, elem_of_singleton. tauto. Qed.

Lemma isInFlight_false t img :
  isInFlight t img = false <-> getImageHash img ∉ inFlight t.
Proof. unfold isInFlight. apply bool_decide_eq_false. Qed.

End TrackerFacts.

(** ** The payload ceiling *)

Section SizeFacts.
Import ImageConverter.

Lemma isWithinSizeLimit_spec base64 maxSizeMB :
  isWithinSizeLimit base64 maxSizeMB = false
  <-> maxSizeMB * (1024 * 1024) < getBase64Size base64.
Proof.
  unfold isWithinSizeLimit.
  generalize (getBase64Size base64) as size. intros size.
  destruct (Qle_bool _ _) eqn:Hle; simpl.
  - apply Qle_bool_iff in Hle. unfold Qle in Hle. simpl in Hle.
    change (Z.pos (1 * (1024 * 1024))) with 1048576 in Hle.
    split; [discriminate | intros Hlt; exfalso; lia].
  - split; [intros _ | done].
    destruct (Z_lt_le_dec (maxSizeMB * (1024 * 1024)) size) as [|Hge]; [done|].
    exfalso. apply Bool.not_true_iff_false in Hle. apply Hle. clear Hle.
    apply Qle_bool_iff. unfold Qle. simpl.
    change (Z.pos (1 * (1024 * 1024))) with 1048576. lia.
Qed.

Lemma length_repeat a n : Js.length (Js.repeat a n) = Z.of_nat n.
Proof.
  unfold Js.length. f_equal. induction n as [|n IH]; simpl; congruence.
Qed.

Lemma count_repeat_other c a n : a <> c -> Js.count c (Js.repeat a n) = 0.
Proof.
  intros Hne. induction n as [|n IH]; simpl; [done|].
  rewrite IH. by destruct (Ascii.eqb_spec a c).
Qed.

Lemma indexOf_repeat_other c a n i : a <> c -> Js.indexOf_from c (Js.repeat a n) i = -1.
Proof.
  intros Hne. revert i. induction n as [|n IH]; intros i; simpl; [done|].
  destruct (Ascii.eqb_spec a c); [done | apply IH].
Qed.

(** A run of [n] letters A is measured as [ceil(3n/4)] bytes. *)
Lemma getBase64Size_repeat n :
  getBase64Size (Js.repeat "A" n) = ceilDiv4 (Z.of_nat n * 3).
Proof.
  unfold getBase64Size, Js.indexOf.
  rewrite length_repeat, count_repeat_other, indexOf_repeat_other by done.
  rewrite Z.sub_0_r. f_equal. lia.
Qed.

Lemma ceilDiv4_lower n : n <= 4 * ceilDiv4 n.
Proof.
  unfold ceilDiv4. pose proof (Z.mul_div_le (- n) 4). lia.
Qed.

End SizeFacts.

(** ** The orchestrator: processSingleImage *)

Section OrchestratorFacts.
Import StateManager ImageProcessor.

Lemma describe_hash img d : getImageHash (describe img d) = getImageHash img.
Proof. reflexivity. Qed.

Lemma reread_reading img : reread img (reading img) = img.
Proof. by destruct img. Qed.

(** The identity hash reads the locator and the natural size only. *)
Lemma reread_hash img r :
  readSrc r = src img -> readWidth r = naturalWidth img ->
  readHeight r = naturalHeight img ->
  getImageHash (reread img r) = getImageHash img.
Proof. intros Hs Hw Hh. by apply getImageHash_same. Qed.

Lemma catchBlock_gone t img e sub :
  getImageHash img ∉ inFlight (tracker (catchBlock t img e sub)).
Proof. apply clearInFlight_gone. Qed.

(** Whatever the tracker holds when the description arrives, the call ends
    with the identity the element has then out of the in-flight set. *)
Lemma afterDescription_gone now t img base64 answer :
  getImageHash img ∉ inFlight (tracker (afterDescription now t img base64 answer)).
Proof.
  destruct answer as [description|error]; simpl.
  - rewrite elem_of_difference, elem_of_singleton. tauto.
  - rewrite elem_of_difference, elem_of_singleton. tauto.
Qed.

(** A call that ends after the conversion leaves the element's current
    identity outside the in-flight set. *)
Lemma afterConversion_current_gone api now t img described converted :
  completion (afterConversion api now t img described converted) <> Suspended ->
  getImageHash (image (afterConversion api now t img described converted))
    ∉ inFlight (tracker (afterConversion api now t img described converted)).
Proof.
  unfold afterConversion.
  destruct converted as [base64|error]; [|intros _; apply catchBlock_gone].
  destruct (negb _); [intros _; apply clearInFlight_gone|].
  destruct (api base64) as [answer|]; [intros _|simpl; congruence].
  destruct answer as [description|error]; simpl;
    rewrite elem_of_difference, elem_of_singleton; tauto.
Qed.

(** When the element still has the identity [h] at the resumptions, that
    identity is the one taken out. *)
Lemma afterConversion_gone api now t img described converted :
  getImageHash (reread img described) = getImageHash img ->
  completion (afterConversion api now t img described converted) <> Suspended ->
  getImageHash img
    ∉ inFlight (tracker (afterConversion api now t img described converted)).
Proof.
  intros Hkept. unfold afterConversion.
  destruct converted as [base64|error]; [|intros _; apply catchBlock_gone].
  destruct (negb _); [intros _; apply clearInFlight_gone|].
  destruct (api base64) as [answer|]; [intros _|simpl; congruence].
  rewrite <- Hkept. apply afterDescription_gone.
Qed.

(** What a call that ends after the conversion does to the in-flight set: it
    takes out the identity the element has at its last resumption, and
    nothing else. *)
Lemma afterConversion_inFlight api now t img described converted :
  completion (afterConversion api now t img described converted) <> Suspended ->
  inFlight (tracker (afterConversion api now t img described converted))
  = inFlight t
    ∖ {[ getImageHash (image (afterConversion api now t img described converted)) ]}.
Proof.
  unfold afterConversion.
  destruct converted as [base64|error]; [|done].
  destruct (negb _); [done|].
  destruct (api base64) as [answer|]; [intros _|simpl; congruence].
  by destruct answer.
Qed.

Lemma isProcessed_inFlight_irrelevant t img fl :
  isProcessed (mkTracker (processedImages t) (processedHashes t) fl) img
  = isProcessed t img.
Proof. reflexivity. Qed.

End OrchestratorFacts.

Section OrchestratorClaims.
Import StateManager ImageProcessor.

(** C1. Once [markProcessed(image, description)] has run, a later
    [processSingleImage] call on any image with the same locator and natural
    dimensions (the same element or a re-created one, whatever marking and
    clearing happened in between) computes the same identity hash, finds it
    with [isProcessed], and returns at once, before its first [await]: the
    tracker is untouched, no conversion is attempted and nothing is handed
    to the request queue, whatever the page does to the element later. *)
Theorem C1_idempotent_processing
        (t : ProcessedImageTracker) (img img' : Image) (description : string)
        (now now' : Z) (ops : list Op)
        (env : ImageConverter.Env) (api : string -> option (Result string))
        (later : Later) :
  src img' = src img ->
  naturalWidth img' = naturalWidth img ->
  naturalHeight img' = naturalHeight img ->
  getImageHash img' = getImageHash img
  /\ isProcessed (applyAll (markProcessed t img description now) ops) img' = true
  /\ processSingleImage env api now'
       (applyAll (markProcessed t img description now) ops) img' later
     = (mkRun Returned (applyAll (markProcessed t img description now) ops) img' [],
        []).
Proof.
  intros Hs Hw Hh.
  pose proof (getImageHash_same img img' Hs Hw Hh) as Hhash.
  assert (isProcessed (applyAll (markProcessed t img description now) ops) img' = true)
    as Hdone.
  { apply isProcessed_of_hash, applyAll_keeps_hashes.
    rewrite Hhash, markProcessed_hashes.
    apply elem_of_union_l, elem_of_singleton. reflexivity. }
  repeat split; [exact Hhash | exact Hdone |].
  unfold processSingleImage. rewrite Hdone. reflexivity.
Qed.

Lemma C1_idempotent_processing_witness :
  getImageHash Samples.catAgain = getImageHash Samples.cat
  /\ isProcessed
       (applyAll (markProcessed create Samples.cat "a cat on a sofa" 1000)
                 [OpMarkInFlight Samples.dog; OpClearInFlight Samples.dog])
       Samples.catAgain = true
  /\ processSingleImage Samples.offline Samples.answering 2000
       (applyAll (markProcessed create Samples.cat "a cat on a sofa" 1000)
                 [OpMarkInFlight Samples.dog; OpClearInFlight Samples.dog])
       Samples.catAgain (unchanged Samples.catAgain)
     = (mkRun Returned
              (applyAll (markProcessed create Samples.cat "a cat on a sofa" 1000)
                        [OpMarkInFlight Samples.dog; OpClearInFlight Samples.dog])
              Samples.catAgain [],
        []).
Proof.
  apply (C1_idempotent_processing create Samples.cat Samples.catAgain
           "a cat on a sofa" 1000 2000
           [OpMarkInFlight Samples.dog; OpClearInFlight Samples.dog]
           Samples.offline Samples.answering (unchanged Samples.catAgain));
    reflexivity.
Defined.

(** The part of C2 that holds. [markProcessed] puts the identity into the
    processed set and takes it out of the in-flight set; and when the element
    shows the same locator and natural size at each resumption as at the
    call, every way [processSingleImage] can end after it marked the image
    in flight (success, oversize skip, an error thrown by the conversion or
    by the description request) leaves the identity outside the in-flight
    set, also when other code changed the tracker while the call was
    suspended. *)
Lemma in_flight_compensated_for_kept_identity
      (t : ProcessedImageTracker) (img : Image) (description : string) (now : Z)
      (env : ImageConverter.Env) (api : string -> option (Result string))
      (later : Later) :
  getImageHash (reread img (whenConverted later)) = getImageHash img ->
  getImageHash (reread img (whenDescribed later)) = getImageHash img ->
  (getImageHash img ∈ processedHashes (markProcessed t img description now)
   /\ getImageHash img ∉ inFlight (markProcessed t img description now))
  /\ (isInFlight t img = false ->
      completion (processSingleImage env api now t img later).1 <> Suspended ->
      getImageHash img
        ∉ inFlight (tracker (processSingleImage env api now t img later).1))
  /\ (forall t' converted,
        completion (afterConversion api now t' (reread img (whenConverted later))
                                    (whenDescribed later) converted) <> Suspended ->
        getImageHash img
          ∉ inFlight (tracker (afterConversion api now t'
                                 (reread img (whenConverted later))
                                 (whenDescribed later) converted))).
Proof.
  intros Hconverted Hdescribed.
  assert (forall t' converted,
        completion (afterConversion api now t' (reread img (whenConverted later))
                                    (whenDescribed later) converted) <> Suspended ->
        getImageHash img
          ∉ inFlight (tracker (afterConversion api now t'
                                 (reread img (whenConverted later))
                                 (whenDescribed later) converted))) as Hgone.
  { intros t' converted Hend. rewrite <- Hconverted.
    apply afterConversion_gone; [|exact Hend].
    change (getImageHash (reread img (whenDescribed later))
            = getImageHash (reread img (whenConverted later))).
    congruence. }
  split; [split|split; [|exact Hgone]].
  - rewrite markProcessed_hashes. apply elem_of_union_l, elem_of_singleton. reflexivity.
  - rewrite markProcessed_inFlight, elem_of_difference, elem_of_singleton. tauto.
  - intros Hfree. unfold processSingleImage.
    destruct (isProcessed t img); [intros _; by apply isInFlight_false|].
    rewrite Hfree.
    destruct (ImageConverter.convertImageToBase64 env img) as [converted tried].
    apply Hgone.
Qed.

(** The mark that a call leaves behind. When the element shows another
    identity at the resumptions than at the call, a call that marked the
    image in flight and ends, in whatever way, leaves the identity it marked
    in the in-flight set: [clearInFlight] and [markProcessed] hash the
    element as it is then. *)
Lemma stale_mark_when_identity_changes
      (t : ProcessedImageTracker) (img : Image) (now : Z)
      (env : ImageConverter.Env) (api : string -> option (Result string))
      (later : Later) :
  isProcessed t img = false ->
  isInFlight t img = false ->
  getImageHash (reread img (whenConverted later)) <> getImageHash img ->
  getImageHash (reread img (whenDescribed later)) <> getImageHash img ->
  completion (processSingleImage env api now t img later).1 <> Suspended ->
  getImageHash img ∈ inFlight (tracker (processSingleImage env api now t img later).1).
Proof.
  intros Hnew Hfree Hconverted Hdescribed. unfold processSingleImage.
  rewrite Hnew, Hfree.
  destruct (ImageConverter.convertImageToBase64 env img) as [converted tried].
  cbn [fst]. intros Hend. rewrite afterConversion_inFlight by exact Hend.
  apply elem_of_difference. split.
  - simpl. set_solver.
  - rewrite elem_of_singleton. intros Heq. revert Hend Heq.
    unfold afterConversion.
    destruct converted as [base64|error]; [|simpl; congruence].
    destruct (negb _); [simpl; congruence|].
    destruct (api base64) as [answer|]; [|simpl; congruence].
    destruct answer as [description|error]; simpl; intros _ Heq.
    + apply Hdescribed. rewrite Heq. reflexivity.
    + apply Hdescribed. rewrite Heq. reflexivity.
Qed.


Lemma hugePayload_size :
  5 * (1024 * 1024) < ImageConverter.getBase64Size Samples.hugePayload.
Proof.
  unfold Samples.hugePayload. rewrite getBase64Size_repeat.
  pose proof (ceilDiv4_lower (Z.of_nat (N.to_nat 8000000) * 3)). lia.
Defined.


(** An oversize payload ends the call at its first resumption. *)
Lemma oversize_returns env api now t img later base64 tried :
  isProcessed t img = false ->
  isInFlight t img = false ->
  ImageConverter.convertImageToBase64 env img = (Ok base64, tried) ->
  5 * (1024 * 1024) < ImageConverter.getBase64Size base64 ->
  completion (processSingleImage env api now t img later).1 = Returned.
Proof.
  intros Hnew Hfree Hconv Hbig.
  assert (ImageConverter.isWithinSizeLimit base64 5 = false) as Hlimit
    by (by apply isWithinSizeLimit_spec).
  unfold processSingleImage. rewrite Hnew, Hfree, Hconv.
  unfold afterConversion. by rewrite Hlimit.
Qed.

(** C2 on a lazily loaded picture. The call is made while the element
    shows the preview and marks the preview's identity in flight; the page
    swaps in the full picture while the conversion is pending. On each of
    the three ways the call can end (the conversion fails, the payload is
    oversize, the description arrives) the identity that is taken out of the
    in-flight set is the one of the full picture, and the preview's stays:
    [isInFlight] is true of any element showing the preview, and a later
    call on such an element returns at once with nothing converted or
    submitted. *)
Theorem C2_stale_in_flight_mark :
  (exists e,
      completion (processSingleImage Samples.offline Samples.answering 1000
                                     create Samples.preview Samples.swapped).1
      = Threw e)
  /\ getImageHash Samples.preview
       ∈ inFlight (tracker (processSingleImage Samples.offline Samples.answering 1000
                                               create Samples.preview Samples.swapped).1)
  /\ completion (processSingleImage Samples.hugeCanvas Samples.answering 1000
                                    create Samples.preview Samples.swapped).1
     = Returned
  /\ getImageHash Samples.preview
       ∈ inFlight (tracker (processSingleImage Samples.hugeCanvas Samples.answering 1000
                                               create Samples.preview Samples.swapped).1)
  /\ completion (processSingleImage Samples.crossOrigin Samples.answering 1000
                                    create Samples.preview Samples.swapped).1
     = Returned
  /\ getImageHash Samples.preview
       ∈ inFlight (tracker (processSingleImage Samples.crossOrigin Samples.answering 1000
                                               create Samples.preview Samples.swapped).1)
  /\ isInFlight (tracker (processSingleImage Samples.offline Samples.answering 1000
                                             create Samples.preview Samples.swapped).1)
                Samples.previewAgain = true
  /\ processSingleImage Samples.crossOrigin Samples.answering 2000
       (tracker (processSingleImage Samples.offline Samples.answering 1000
                                    create Samples.preview Samples.swapped).1)
       Samples.previewAgain (unchanged Samples.previewAgain)
     = (mkRun Returned
              (tracker (processSingleImage Samples.offline Samples.answering 1000
                                           create Samples.preview Samples.swapped).1)
              Samples.previewAgain [],
        []).
Proof.
  assert (Hdiffer : getImageHash (reread Samples.preview Samples.fullPicture)
                    <> getImageHash Samples.preview)
    by (vm_compute; discriminate).
  assert (Hstale : forall env,
             completion (processSingleImage env Samples.answering 1000
                                            create Samples.preview Samples.swapped).1
             <> Suspended ->
             getImageHash Samples.preview
               ∈ inFlight (tracker (processSingleImage env Samples.answering 1000
                                      create Samples.preview Samples.swapped).1)).
  { intros env. apply stale_mark_when_identity_changes; try exact Hdiffer.
    - vm_compute. reflexivity.
    - vm_compute. reflexivity. }
  assert (Hfails : exists e,
             completion (processSingleImage Samples.offline Samples.answering 1000
                                            create Samples.preview Samples.swapped).1
             = Threw e).
  { eexists. vm_compute. reflexivity. }
  assert (Hhuge : completion (processSingleImage Samples.hugeCanvas Samples.answering
                                1000 create Samples.preview Samples.swapped).1
                  = Returned).
  { apply (oversize_returns _ _ _ _ _ _ Samples.hugePayload [ImageConverter.Canvas]).
    - vm_compute. reflexivity.
    - vm_compute. reflexivity.
    - reflexivity.
    - exact hugePayload_size. }
  assert (Hdescribed : completion (processSingleImage Samples.crossOrigin
                                     Samples.answering 1000 create Samples.preview
                                     Samples.swapped).1
                       = Returned).
  { vm_compute. reflexivity. }
  assert (Hbusy : isInFlight
                    (tracker (processSingleImage Samples.offline Samples.answering 1000
                                create Samples.preview Samples.swapped).1)
                    Samples.previewAgain = true).
  { apply bool_decide_eq_true.
    change (getImageHash Samples.previewAgain) with (getImageHash Samples.preview).
    apply Hstale. destruct Hfails as [e ->]. discriminate. }
  repeat apply conj.
  - exact Hfails.
  - apply Hstale. destruct Hfails as [e ->]. discriminate.
  - exact Hhuge.
  - apply Hstale. rewrite Hhuge. discriminate.
  - exact Hdescribed.
  - apply Hstale. rewrite Hdescribed. discriminate.
  - exact Hbusy.
  - revert Hbusy.
    generalize (tracker (processSingleImage Samples.offline Samples.answering 1000
                           create Samples.preview Samples.swapped).1).
    intros t0 Hbusy. unfold processSingleImage. rewrite Hbusy.
    destruct (isProcessed t0 Samples.previewAgain); reflexivity.
Qed.

End OrchestratorClaims.

(** ** The converter's fallback chain *)

Section ConverterClaims.
Import StateManager ImageConverter.

(** C8. For an image with a non-empty locator and non-zero natural
    dimensions: a [data:] locator is returned unchanged and no strategy is
    tried; otherwise the strategies tried are an initial segment of canvas,
    direct fetch, background proxy, each one before the last tried has
    failed, a success of the last one is the result (the first success),
    and a failure of the last one means all three were tried and the call
    throws the terminal error "Image conversion failed: ...". *)
Theorem C8_fallback_chain (env : Env) (img : Image) :
  src img <> "" ->
  naturalWidth img <> 0%N ->
  naturalHeight img <> 0%N ->
  if Js.startsWith "data:" (src img)
  then convertImageToBase64 env img = (Ok (src img), [])
  else exists failed last untried,
      chain = (failed ++ last :: untried)%list
      /\ (convertImageToBase64 env img).2 = (failed ++ [last])%list
      /\ Forall (fun s => exists e, attempt env img s = Throw e) failed
      /\ match attempt env img last with
         | Ok base64 => (convertImageToBase64 env img).1 = Ok base64
         | Throw e =>
             untried = []
             /\ (convertImageToBase64 env img).1
                = Throw (Error ("Image conversion failed: " +:+ message e))
         end.
Proof.
  intros Hsrc Hw Hh. unfold convertImageToBase64.
  destruct (String.eqb_spec (src img) "") as [|_]; [done|].
  destruct (N.eqb_spec (naturalWidth img) 0) as [|_]; [done|].
  destruct (N.eqb_spec (naturalHeight img) 0) as [|_]; [done|]. simpl orb.
  destruct (Js.startsWith "data:" (src img)); [done|].
  destruct (imageToBase64Canvas env img) as [b1|e1] eqn:H1.
  { exists [], Canvas, [DirectFetch; BackgroundProxy]. simpl. by rewrite H1. }
  destruct (fetchImageAsBase64 env (src img)) as [b2|e2] eqn:H2.
  { exists [Canvas], DirectFetch, [BackgroundProxy]. simpl. rewrite H2.
    repeat split. repeat constructor. by exists e1. }
  destruct (requestBackgroundConversion env (src img)) as [b3|e3] eqn:H3.
  - exists [Canvas; DirectFetch], BackgroundProxy, []. simpl. rewrite H3.
    repeat split. repeat constructor; [by exists e1 | by exists e2].
  - exists [Canvas; DirectFetch], BackgroundProxy, []. simpl. rewrite H3.
    repeat split. repeat constructor; [by exists e1 | by exists e2].
Qed.

Lemma C8_fallback_chain_witness :
  exists failed last untried,
    chain = (failed ++ last :: untried)%list
    /\ (convertImageToBase64 Samples.crossOrigin Samples.cat).2 = (failed ++ [last])%list
    /\ Forall (fun s => exists e, attempt Samples.crossOrigin Samples.cat s = Throw e)
              failed
    /\ match attempt Samples.crossOrigin Samples.cat last with
       | Ok base64 => (convertImageToBase64 Samples.crossOrigin Samples.cat).1 = Ok base64
       | Throw e =>
           untried = []
           /\ (convertImageToBase64 Samples.crossOrigin Samples.cat).1
              = Throw (Error ("Image conversion failed: " +:+ message e))
       end.
Proof.
  apply (C8_fallback_chain Samples.crossOrigin Samples.cat); discriminate.
Defined.

Example convert_cross_origin :
  convertImageToBase64 Samples.crossOrigin Samples.cat
  = (Ok "data:image/png;base64,iVBORw0KGgo=", [Canvas; DirectFetch]).
Proof. reflexivity. Qed.

Example convert_offline :
  convertImageToBase64 Samples.offline Samples.cat
  = (Throw (Error "Image conversion failed: Background conversion failed"),
     [Canvas; DirectFetch; BackgroundProxy]).
Proof. reflexivity. Qed.

End ConverterClaims.

(** ** The retry loop of the description client *)

Section RetryFacts.
Import Browser ApiClient.

Variables (env : Env) (base64 : string) (maxRetries : nat).

(** One iteration of the loop. *)
Lemma retryLoop_step fuel a lastError :
  retryLoop env base64 maxRetries (S fuel) a lastError
  = match attemptOnce env base64 a with
    | Ok description => (Ok description, [Attempt a])
    | Throw error =>
        if dontRetry error then (Throw error, [Attempt a])
        else
          let wait := if (a <? maxRetries)%nat then [Sleep (waitTime a)] else [] in
          let '(result, events) :=
            retryLoop env base64 maxRetries fuel (S a) (Some error) in
          (result, Attempt a :: wait ++ events)
    end.
Proof. reflexivity. Qed.

(** [k] retried failures from attempt [a] on, then an attempt that ends
    the loop by itself: a success, or an error that is not retried. *)
Lemma retryLoop_ends (final : Result string) :
  (forall d, final = Ok d -> True) ->
  (forall e, final = Throw e -> dontRetry e = true) ->
  forall k a fuel lastError,
    (a + k <= maxRetries)%nat ->
    (fuel = maxRetries + 1 - a)%nat ->
    (forall i, (a <= i < a + k)%nat -> failsRetryably env base64 i) ->
    attemptOnce env base64 (a + k) = final ->
    retryLoop env base64 maxRetries fuel a lastError
    = (final, (failedAttempts a k ++ [Attempt (a + k)])%list).
Proof.
  intros _ Hstop. induction k as [|k IH]; intros a fuel lastError Hle Hfuel Hfail Hfinal.
  - rewrite Nat.add_0_r in Hfinal.
    destruct fuel as [|fuel]; [lia|]. rewrite retryLoop_step, Hfinal, Nat.add_0_r.
    destruct final as [d|e]; [done|]. by rewrite (Hstop e).
  - destruct fuel as [|fuel]; [lia|]. rewrite retryLoop_step.
    destruct (Hfail a) as (e & He & Hretry); [lia|].
    rewrite He, Hretry.
    destruct (Nat.ltb_spec a maxRetries) as [_|]; [|lia].
    rewrite (IH (S a) fuel (Some e)); [|lia|lia| |].
    + simpl. by rewrite Nat.add_succ_r.
    + intros i Hi. apply Hfail. lia.
    + by replace (S a + k)%nat with (a + S k)%nat by lia.
Qed.

(** Every attempt from [a] to [maxRetries] fails and is retried: the loop
    runs out and the final [throw] embeds the message of the last error. *)
Lemma retryLoop_exhausted (last : JsError) :
  attemptOnce env base64 maxRetries = Throw last ->
  dontRetry last = false ->
  forall k a fuel lastError,
    (a + k = maxRetries)%nat ->
    (fuel = S k)%nat ->
    (forall i, (a <= i < a + k)%nat -> failsRetryably env base64 i) ->
    retryLoop env base64 maxRetries fuel a lastError
    = (Throw (Error ("API failed after " +:+ Js.decimal (N.of_nat maxRetries)
                       +:+ " attempts: " +:+ message last)),
       (failedAttempts a k ++ [Attempt maxRetries])%list).
Proof.
  intros Hlast Hretry. induction k as [|k IH]; intros a fuel lastError Hsum Hfuel Hfail.
  - subst fuel. rewrite Nat.add_0_r in Hsum. subst a. rewrite retryLoop_step.
    rewrite Hlast, Hretry, Nat.ltb_irrefl. reflexivity.
  - subst fuel. rewrite retryLoop_step.
    destruct (Hfail a) as (e & He & Hre); [lia|].
    rewrite He, Hre.
    destruct (Nat.ltb_spec a maxRetries) as [_|]; [|lia].
    rewrite (IH (S a) (S k) (Some e)); [done|lia|done|].
    intros i Hi. apply Hfail. lia.
Qed.

End RetryFacts.

Section MessageFacts.
Import Browser ApiClient.

(** A response with status 400 yields an error that is not retried. *)
Lemma status_400_not_retried text body e :
  sendWithTimeout (FetchResponds (mkResponse 400 text) body) = Throw e ->
  dontRetry e = true.
Proof. simpl. intros [= <-]. reflexivity. Qed.

(** A 2xx response without a string description yields "Invalid API
    response format", which is not retried. *)
Lemma invalid_shape_not_retried response body e :
  ok response = true ->
  body = Ok JFalsy \/ body = Ok JNoDescription ->
  sendWithTimeout (FetchResponds response body) = Throw e ->
  dontRetry e = true.
Proof.
  intros Hok Hbody. unfold sendWithTimeout. rewrite Hok. simpl.
  destruct Hbody as [-> | ->]; intros [= <-]; reflexivity.
Qed.

End MessageFacts.

Section RetryClaims.
Import Browser ApiClient.

Example send_flaky :
  sendImageToAPI Samples.flaky Samples.jpeg MAX_RETRIES
  = (Ok "a cat on a sofa",
     [Attempt 1; Sleep 1000; Attempt 2; Sleep 2000; Attempt 3]).
Proof. vm_compute. reflexivity. Qed.


Example send_rejecting :
  sendImageToAPI Samples.rejecting Samples.jpeg MAX_RETRIES
  = (Throw (Error "API returned 400: Bad Request"),
     [Attempt 1; Sleep 1000; Attempt 2]).
Proof. vm_compute. reflexivity. Qed.

(** A request aborted by the timeout is reported as "Request timeout", which
    the loop retries. *)
Example timeout_is_retried :
  sendWithTimeout (FetchRejects AbortError) = Throw (Error "Request timeout")
  /\ dontRetry (Error "Request timeout") = false.
Proof. split; reflexivity. Qed.

(** A payload without a comma fails in [base64ToBlob] with "Invalid base64
    format": no request is sent and nothing is retried. *)
Example send_malformed :
  sendImageToAPI Samples.flaky "no comma here" MAX_RETRIES
  = (Throw (Error "Invalid base64 format"), [Attempt 1]).
Proof. vm_compute. reflexivity. Qed.




(** The test reads the whole message, the status text included: a 401
    response whose status text is "Invalid token" is not retried. *)
Example send_unauthorized :
  sendImageToAPI
    (Samples.service (fun _ => Samples.respond 401 "Invalid token" JFalsy))
    Samples.jpeg MAX_RETRIES
  = (Throw (Error "API returned 401: Invalid token"), [Attempt 1]).
Proof. vm_compute. reflexivity. Qed.

(** C5. With the default of three attempts: if attempts 1..k-1 fail with
    retried errors and attempt k succeeds, [sendImageToAPI] returns the
    description of attempt k, having slept [2^(i-1)] seconds after each
    failed attempt i (1000 ms after the first, 2000 ms after the second);
    if all three attempts fail with retried errors it throws
    "API failed after 3 attempts: " followed by the last error's message,
    without sleeping after the third attempt. *)
Theorem C5_retry_with_backoff (env : Env) (base64 : string) :
  (forall k description,
      (1 <= k <= MAX_RETRIES)%nat ->
      (forall i, (1 <= i < k)%nat -> failsRetryably env base64 i) ->
      attemptOnce env base64 k = Ok description ->
      sendImageToAPI env base64 MAX_RETRIES
      = (Ok description, (failedAttempts 1 (k - 1) ++ [Attempt k])%list))
  /\ (forall last,
        (forall i, (1 <= i < MAX_RETRIES)%nat -> failsRetryably env base64 i) ->
        attemptOnce env base64 MAX_RETRIES = Throw last ->
        dontRetry last = false ->
        sendImageToAPI env base64 MAX_RETRIES
        = (Throw (Error ("API failed after 3 attempts: " +:+ message last)),
           [Attempt 1; Sleep 1000; Attempt 2; Sleep 2000; Attempt 3]))
  /\ failedAttempts 1 2 = [Attempt 1; Sleep 1000; Attempt 2; Sleep 2000]
  /\ (forall i, (1 <= i)%nat -> waitTime i = 2 ^ (Z.of_nat i - 1) * 1000).
Proof.
  split; [|split; [|split]].
  - intros k description Hk Hfail Hok. unfold sendImageToAPI.
    replace (Attempt k) with (Attempt (1 + (k - 1))) by (f_equal; lia).
    apply retryLoop_ends; try done.
    + lia.
    + intros i Hi. apply Hfail. lia.
    + by replace (1 + (k - 1))%nat with k by lia.
  - intros last Hfail Hlast Hretry. unfold sendImageToAPI.
    rewrite (retryLoop_exhausted env base64 MAX_RETRIES last Hlast Hretry 2 1);
      [reflexivity | reflexivity | reflexivity |].
    intros i Hi. apply Hfail. unfold MAX_RETRIES. lia.
  - reflexivity.
  - reflexivity.
Qed.

Lemma C5_retry_with_backoff_witness :
  sendImageToAPI Samples.flaky Samples.jpeg MAX_RETRIES
  = (Ok "a cat on a sofa", (failedAttempts 1 (3 - 1) ++ [Attempt 3])%list)
  /\ sendImageToAPI Samples.unavailable Samples.jpeg MAX_RETRIES
     = (Throw (Error ("API failed after 3 attempts: "
                        +:+ "API returned 503: Service Unavailable")),
        [Attempt 1; Sleep 1000; Attempt 2; Sleep 2000; Attempt 3]).
Proof.
  assert (forall env, (forall n, attemptOnce env Samples.jpeg n
                                 = Throw (Error "API returned 503: Service Unavailable")
                                 \/ (3 <= n)%nat) ->
                      forall i, (1 <= i < MAX_RETRIES)%nat ->
                                failsRetryably env Samples.jpeg i) as Hdown.
  { intros env Henv i Hi. destruct (Henv i) as [Hi'|]; [|unfold MAX_RETRIES in Hi; lia].
    eexists. split; [exact Hi' | reflexivity]. }
  split.
  - apply (proj1 (C5_retry_with_backoff Samples.flaky Samples.jpeg) 3%nat "a cat on a sofa").
    + unfold MAX_RETRIES. lia.
    + apply Hdown. intros [|[|[|n]]]; (left; reflexivity) || (right; lia).
    + reflexivity.
  - apply (proj1 (proj2 (C5_retry_with_backoff Samples.unavailable Samples.jpeg))
             (Error "API returned 503: Service Unavailable")).
    + apply Hdown. intros n. left. reflexivity.
    + reflexivity.
    + reflexivity.
Defined.

End RetryClaims.

(** ** The background message handler *)

Section BackgroundClaims.
Import Browser Background.

Example handle_convert_png :
  handleMessage
    (fun _ => FetchResponds (mkResponse 200 "OK")
                            (Ok (mkBlob "image/png" (Some "data:image/png;base64,iVBORw0KGgo="))))
    (MValue (VStr "CONVERT_IMAGE") (VStr "http://example.com/cat.png"))
  = Ok (ConvertOk "data:image/png;base64,iVBORw0KGgo=").
Proof. reflexivity. Qed.

Example handle_convert_html :
  handleMessage
    (fun _ => FetchResponds (mkResponse 200 "OK")
                            (Ok (mkBlob "text/html" (Some "data:text/html;base64,PGh0bWw+"))))
    (MValue (VStr "CONVERT_IMAGE") (VStr "http://example.com/"))
  = Ok (Failure "Not an image: text/html").
Proof. reflexivity. Qed.

Example handle_primitive :
  handleMessage Samples.unreachable (MValue VUndefined VUndefined)
  = Ok (Failure "Unknown message type: undefined").
Proof. reflexivity. Qed.

(** An array is no string, whatever it renders as. *)
Example handle_array_type :
  handleMessage Samples.unreachable Samples.arrayTyped
  = Ok (Failure "Unknown message type: CONVERT_IMAGE").
Proof. reflexivity. Qed.

Example handle_large_number :
  handleMessage Samples.unreachable (MValue (VNum true "1e+21") VUndefined)
  = Ok (Failure "Unknown message type: 1e+21").
Proof. reflexivity. Qed.

Example handle_numeric_url :
  handleMessage Samples.unreachable (MValue (VStr "CONVERT_IMAGE") (VNum true "5"))
  = Ok (Failure "url.substring is not a function").
Proof. reflexivity. Qed.

(** C10, as stated, fails: the handler renders [message.type] for its first
    log line before it enters the [try] block. A [null] message makes the
    property read throw, and a message whose [type] is an object that cannot
    be converted to a string, such as [{type: {toString: null}}], makes the
    template literal throw: in both cases the returned promise rejects with
    a TypeError instead of fulfilling with a reply object. *)
Lemma C10_counterexample_rejected_messages :
  ~ (forall fetch msg, exists reply, handleMessage fetch msg = Ok reply)
  /\ ~ (forall fetch type url,
          exists reply, handleMessage fetch (MValue type url) = Ok reply)
  /\ handleMessage Samples.unreachable MNull
     = Throw (mkError "TypeError" "message is null")
  /\ handleMessage Samples.unreachable Samples.unprintable
     = Throw (mkError "TypeError" "can't convert message.type to string").
Proof.
  repeat apply conj.
  - intros Hclaim. destruct (Hclaim Samples.unreachable MNull) as [reply Hreply].
    discriminate Hreply.
  - intros Hclaim.
    destruct (Hclaim Samples.unreachable
                (VObject (Throw (mkError "TypeError"
                                         "can't convert message.type to string")))
                VUndefined) as [reply Hreply].
    discriminate Hreply.
  - reflexivity.
  - reflexivity.
Qed.

(** C10, amended. For every incoming message other than [null] and
    [undefined] whose [type] can be converted to a string, the handler
    fulfils with a reply object carrying a boolean [success]:
    [{success: true, base64}] for a CONVERT_IMAGE request whose resource is
    fetched and read as an image, [{success: true, stats}] for GET_STATS, and
    [{success: false, error: <message>}] for an unknown type, for a
    CONVERT_IMAGE request without a (truthy) url and for any failure of the
    fetch or of the decoding. It does not reject. Only an object (or array)
    can fail to convert, and then the promise rejects with what the
    conversion threw. *)
Theorem C10_handler_total_on_printable_type
        (fetch : string -> Fetched Blob) (type url : JsVal) :
  (forall text,
      render type = Ok text ->
      exists reply,
        handleMessage fetch (MValue type url) = Ok reply
        /\ reply =
           (if strictEq type "CONVERT_IMAGE" then
              if truthy url then
                match fetchImageAsBase64 fetch url with
                | Ok base64 => ConvertOk base64
                | Throw e => Failure (message e)
                end
              else Failure "No URL provided"
            else if strictEq type "GET_STATS" then StatsOk
            else Failure ("Unknown message type: " +:+ text))
        /\ (success reply = true
            <-> (strictEq type "CONVERT_IMAGE" = true /\ truthy url = true
                 /\ exists base64, fetchImageAsBase64 fetch url = Ok base64)
                \/ (strictEq type "CONVERT_IMAGE" = false
                    /\ strictEq type "GET_STATS" = true))
        /\ (success reply = false <-> exists error, reply = Failure error))
  /\ (forall e,
        render type = Throw e ->
        type = VObject (Throw e)
        /\ handleMessage fetch (MValue type url) = Throw e).
Proof.
  split.
  - intros text Htext. unfold handleMessage, dispatch. rewrite Htext.
    destruct (strictEq type "CONVERT_IMAGE") eqn:Hconvert.
    + destruct (truthy url) eqn:Hurl; simpl.
      * destruct (fetchImageAsBase64 fetch url) as [base64|e] eqn:Hfetch;
          eexists; (split; [reflexivity|split; [reflexivity|]]); simpl; split.
        -- split; [intros _; left; eauto | done].
        -- split; [done | intros [error [=]]].
        -- split; [done | intros [(_ & _ & b & [=]) | [[=] _]]].
        -- split; [eauto | done].
      * eexists; (split; [reflexivity|split; [reflexivity|]]); simpl; split.
        -- split; [done | intros [(_ & [=] & _) | [[=] _]]].
        -- split; [eauto | done].
    + destruct (strictEq type "GET_STATS") eqn:Hstats;
        eexists; (split; [reflexivity|split; [reflexivity|]]); simpl; split.
      * split; [intros _; right; done | done].
      * split; [done | intros [error [=]]].
      * split; [done | intros [([=] & _) | [_ [=]]]].
      * split; [eauto | done].
  - intros e Hthrown. split.
    + destruct type as [| |b|nonzero text|s|text]; try discriminate Hthrown.
      simpl in Hthrown. by subst text.
    + unfold handleMessage. by rewrite Hthrown.
Qed.

Lemma C10_handler_total_on_printable_type_witness :
  exists reply,
    handleMessage Samples.unreachable Samples.arrayTyped = Ok reply
    /\ reply = Failure "Unknown message type: CONVERT_IMAGE".
Proof.
  destruct (proj1 (C10_handler_total_on_printable_type
                     Samples.unreachable (VObject (Ok "CONVERT_IMAGE"))
                     (VStr "http://example.com/cat.png"))
                  "CONVERT_IMAGE" eq_refl)
    as (reply & Hrun & Hreply & _).
  exists reply. split; [exact Hrun | exact Hreply].
Defined.

End BackgroundClaims.

(** ** The request queue *)

Section QueueFacts.
Import ApiClient QueueRun.

Lemma process_cases q :
  (process q = (q, None)
   /\ (concurrency q <= active q \/ queue q = []))
  \/ (exists entry rest,
        queue q = entry :: rest
        /\ active q < concurrency q
        /\ process q
           = (mkQueue (concurrency q) (delayMs q) rest (active q + 1) (stats q),
              Some entry)).
Proof.
  unfold process.
  destruct (Z.leb_spec (concurrency q) (active q)) as [Hfull|Hroom]; simpl.
  - left. split; [done | by left].
  - destruct (queue q) as [|entry rest] eqn:Hq; simpl.
    + left. split; [done | by right].
    + right. by exists entry, rest.
Qed.

Lemma resume_cases q succeeded :
  (queue q <> [] /\ resume q succeeded = (counted q succeeded, AwaitSleep))
  \/ (queue q = [] /\ resume q succeeded = (counted q succeeded, Recursed None)).
Proof.
  unfold resume.
  destruct (queue q) as [|entry rest] eqn:Hq.
  - right. split; [done|]. simpl. rewrite Hq. simpl.
    unfold process. simpl. rewrite Hq. simpl. by rewrite orb_true_r.
  - left. split; [done|]. simpl. by rewrite Hq.
Qed.

Lemma takeOut_length x l l' : takeOut x l = Some l' -> length l = S (length l').
Proof.
  revert l'. induction l as [|y l IH]; intros l'; simpl; [done|].
  destruct (decide (x = y)); [by intros [= <-]|].
  destruct (takeOut x l) as [l0|]; simpl; [|done].
  intros [= <-]. simpl. by rewrite (IH l0).
Qed.

Lemma takeSleeper_elem x l due others :
  takeSleeper x l = Some (due, others) ->
  (x, due) ∈ l /\ (forall s, s ∈ others -> s ∈ l).
Proof.
  revert due others. induction l as [|[y d] l IH]; intros due others; simpl; [done|].
  destruct (decide (x = y)) as [->|].
  - intros [= <- <-]. split; [left | intros s Hs; by right].
  - destruct (takeSleeper x l) as [[d' rest]|]; simpl; [|done].
    intros [= <- <-]. destruct (IH d' rest eq_refl) as [Hin Hsub].
    split; [by right|]. intros s [->|Hs]%elem_of_cons; [left | right; auto].
Qed.

(** Invariants carry over a run action by action. *)
Lemma run_invariant (allowed : Action -> bool) (P : World -> Prop) :
  (forall w a w', allowed a = true -> P w -> step w a = Some w' -> P w') ->
  forall actions w w',
    forallb allowed actions = true -> P w -> run w actions = Some w' -> P w'.
Proof.
  intros Hstep. induction actions as [|a actions IH]; intros w w' Hall Hw; simpl.
  - by intros [= <-].
  - simpl in Hall. apply andb_true_iff in Hall as [Ha Hall].
    destruct (step w a) as [w1|] eqn:Hs; [|done].
    apply IH; [done|]. by apply (Hstep w a).
Qed.

Lemma forallb_always {A} (l : list A) : forallb (fun _ => true) l = true.
Proof. by induction l. Qed.

Lemma countZ_app f tr tr' : countZ f (tr ++ tr') = countZ f tr + countZ f tr'.
Proof. induction tr as [|e tr IH]; simpl; lia. Qed.

(** The outcomes of one action, with the world after it made explicit. *)
Ltac step_cases Hstep :=
  match type of Hstep with
  | step ?w ?a = Some _ =>
      let entry := fresh "entry" in
      let succeeded := fresh "succeeded" in
      let after := fresh "after" in
      let ms := fresh "ms" in
      destruct a as [|entry succeeded|after|ms|]; simpl in Hstep;
      [ unfold add in Hstep;
        match type of Hstep with
        | context [process ?q] =>
            destruct (process_cases q)
              as [[Hp Hwhy]|(head & rest & Hq & Hroom & Hp)];
            rewrite Hp in Hstep
        end
      | destruct (takeOut entry (awaiting w)) as [others|] eqn:Htake;
        [|discriminate Hstep];
        destruct (resume_cases (rq w) succeeded) as [[Hne Hr]|[Hempty Hr]];
        rewrite Hr in Hstep
      | destruct (takeSleeper after (sleeping w)) as [[due others]|] eqn:Htake;
        [|discriminate Hstep];
        destruct (Z.leb_spec due (clock w)) as [Hdue|]; [|discriminate Hstep];
        destruct (process_cases (rq w))
          as [[Hp Hwhy]|(head & rest & Hq & Hroom & Hp)];
        rewrite Hp in Hstep
      | destruct (Z.ltb_spec 0 ms); [|discriminate Hstep]
      | ];
      injection Hstep as <-
  end.

(** *** The counters *)

Record StatsInv (w : World) : Prop := {
  inv_total : total (stats (rq w)) = countZ isAdded (trace w);
  inv_success : success (stats (rq w)) = countZ (isSettled true) (trace w);
  inv_failed : failed (stats (rq w)) = countZ (isSettled false) (trace w);
  inv_active : active (rq w) = Z.of_nat (length (awaiting w))
}.

Lemma StatsInv_init c d : StatsInv (init c d).
Proof. by split. Qed.

Lemma StatsInv_step w a w' : StatsInv w -> step w a = Some w' -> StatsInv w'.
Proof.
  intros [Ht Hs Hf Ha] Hstep. step_cases Hstep;
    split; simpl; rewrite ?countZ_app, ?length_app; simpl;
    try (apply takeOut_length in Htake);
    try (destruct succeeded; simpl); lia.
Qed.

Lemma StatsInv_run c d actions w :
  run (init c d) actions = Some w -> StatsInv w.
Proof.
  apply (run_invariant (fun _ => true) StatsInv).
  - intros w0 a w1 _. apply StatsInv_step.
  - apply forallb_always.
  - apply StatsInv_init.
Qed.

(** *** Order of dispatch, for runs without [clear()] *)

Lemma seq_split_head (l r : list nat) x : forall a n,
  l ++ x :: r = seq a n -> l = seq a (x - a) /\ (a <= x)%nat.
Proof.
  induction l as [|y l IH]; intros a n Heq; destruct n as [|n]; simpl in Heq;
    try discriminate Heq; injection Heq as -> Heq.
  - by rewrite Nat.sub_diag.
  - destruct (IH _ _ Heq) as [-> Hle]. split; [|lia].
    replace (x - a)%nat with (S (x - S a)) by lia. reflexivity.
Qed.

Record FifoInv (w : World) : Prop := {
  fifo_added : addOrder (trace w) = seq 0 (issued w);
  fifo_split : startOrder (trace w) ++ queue (rq w) = seq 0 (issued w);
  fifo_before :
    forall pre ev post j,
      trace w = pre ++ ev :: post ->
      startedEntry ev = Some j ->
      startOrder pre = seq 0 j
}.

Lemma FifoInv_init c d : FifoInv (init c d).
Proof.
  split; [done | done |]. intros pre ev post j Htr. by destruct pre.
Qed.

(** Appending events keeps [fifo_before] when each new start finds exactly
    the lower-numbered entries started before it. *)
Lemma fifo_before_extend (tr new : list (Z * Event)) :
  (forall pre ev post j,
      tr = pre ++ ev :: post -> startedEntry ev = Some j ->
      startOrder pre = seq 0 j) ->
  (forall pre ev post j,
      new = pre ++ ev :: post -> startedEntry ev = Some j ->
      startOrder (tr ++ pre) = seq 0 j) ->
  forall pre ev post j,
    tr ++ new = pre ++ ev :: post -> startedEntry ev = Some j ->
    startOrder pre = seq 0 j.
Proof.
  intros Hold Hnew pre ev post j Heq Hev.
  apply app_eq_app in Heq as [mid [[-> Hmid]|[-> Hmid]]].
  - destruct mid as [|ev' mid]; simpl in Hmid.
    + specialize (Hnew [] ev post j (eq_sym Hmid) Hev).
      by rewrite !app_nil_r in Hnew.
    + injection Hmid as <- ->. by apply (Hold pre ev mid j).
  - by apply (Hnew mid ev post j).
Qed.

Lemma startOrder_app tr tr' : startOrder (tr ++ tr') = startOrder tr ++ startOrder tr'.
Proof. apply omap_app. Qed.

Lemma addOrder_app tr tr' : addOrder (tr ++ tr') = addOrder tr ++ addOrder tr'.
Proof. apply omap_app. Qed.

Lemma started_below tr head rest n :
  startOrder tr ++ head :: rest = seq 0 n -> startOrder tr = seq 0 head.
Proof.
  intros Heq. destruct (seq_split_head _ _ _ _ _ Heq) as [-> _].
  by rewrite Nat.sub_0_r.
Qed.

(** The new events of one action, looked at one by one. *)
Ltac new_events Hbefore :=
  apply fifo_before_extend; [exact Hbefore|];
  let pre := fresh "pre" in
  let Hnew := fresh "Hnew" in
  let Hev := fresh "Hev" in
  intros pre ? ? ? Hnew Hev;
  repeat (destruct pre as [|? pre]; simpl in Hnew; try discriminate Hnew);
  injection Hnew as <-; intros; subst; simpl in Hev; try discriminate Hev;
  injection Hev as <-;
  rewrite ?startOrder_app; simpl; rewrite ?app_nil_r.

Lemma FifoInv_step w a w' :
  isClear a = false -> FifoInv w -> step w a = Some w' -> FifoInv w'.
Proof.
  intros Hclear [Hadd Hsplit Hbefore] Hstep.
  step_cases Hstep; try discriminate Hclear; simpl in *.
  - split; cbn -[seq].
    + by rewrite addOrder_app, Hadd, seq_S.
    + by rewrite startOrder_app, app_nil_r, app_assoc, Hsplit, seq_S.
    + new_events Hbefore.
  - assert (startOrder (trace w) ++ head :: rest = seq 0 (S (issued w))) as Hall
      by (by rewrite <- Hq, app_assoc, Hsplit, seq_S).
    split; cbn -[seq].
    + by rewrite addOrder_app, Hadd, seq_S.
    + rewrite startOrder_app. cbn -[seq]. by rewrite <- app_assoc.
    + new_events Hbefore. by apply started_below in Hall.
  - split; cbn -[seq].
    + by rewrite addOrder_app, app_nil_r.
    + by rewrite startOrder_app, app_nil_r.
    + new_events Hbefore.
  - split; cbn -[seq].
    + by rewrite addOrder_app, app_nil_r.
    + by rewrite startOrder_app, app_nil_r.
    + new_events Hbefore.
  - split; cbn -[seq].
    + by rewrite app_nil_r.
    + by rewrite app_nil_r.
    + rewrite app_nil_r. exact Hbefore.
  - rewrite Hq in Hsplit.
    split; cbn -[seq].
    + by rewrite addOrder_app, app_nil_r.
    + rewrite startOrder_app. cbn -[seq]. by rewrite <- app_assoc.
    + new_events Hbefore. by apply started_below in Hsplit.
  - by split.
Qed.

Lemma FifoInv_run c d actions w :
  forallb (fun a => negb (isClear a)) actions = true ->
  run (init c d) actions = Some w -> FifoInv w.
Proof.
  intros Hall. apply (run_invariant (fun a => negb (isClear a)) FifoInv);
    [|exact Hall|apply FifoInv_init].
  intros w0 a w1 Ha. apply FifoInv_step. by apply negb_true_iff.
Qed.

(** *** Pacing *)

Record PacingInv (delay : Z) (w : World) : Prop := {
  pace_delay : delayMs (rq w) = delay;
  pace_sleeping :
    forall after due,
      (after, due) ∈ sleeping w ->
      exists time succeeded pending,
        (time, Settled after succeeded pending) ∈ trace w
        /\ pending <> [] /\ due = time + delay;
  pace_wake :
    forall time' entry after,
      (time', Started entry (ByWake after)) ∈ trace w ->
      exists time succeeded pending,
        (time, Settled after succeeded pending) ∈ trace w
        /\ pending <> [] /\ time + delay <= time';
  pace_recursion :
    forall time entry after, (time, Started entry (ByRecursion after)) ∉ trace w
}.

Lemma PacingInv_init c d : PacingInv d (init c d).
Proof.
  split; simpl; [done | | |].
  - intros after due Hin. by apply elem_of_nil in Hin.
  - intros time' entry after Hin. by apply elem_of_nil in Hin.
  - intros time entry after Hin. by apply elem_of_nil in Hin.
Qed.

Lemma settled_kept (tr new : list (Z * Event)) (P : Z -> bool -> list nat -> Prop) after :
  (exists time succeeded pending,
      (time, Settled after succeeded pending) ∈ tr /\ P time succeeded pending) ->
  exists time succeeded pending,
    (time, Settled after succeeded pending) ∈ tr ++ new /\ P time succeeded pending.
Proof.
  intros (time & succeeded & pending & Hin & HP).
  exists time, succeeded, pending. split; [|done]. apply elem_of_app. by left.
Qed.

(** Membership in a trace extended by the events of one action: either an
    old event, or one of the new ones, each left as an equation. *)
Ltac old_or_new Hin :=
  apply elem_of_app in Hin as [Hin|Hin];
  [ | repeat (apply elem_of_cons in Hin as [Hin|Hin]; [try discriminate Hin|]);
      try (by apply elem_of_nil in Hin) ].

Lemma delayMs_step w a w' : step w a = Some w' -> delayMs (rq w') = delayMs (rq w).
Proof. intros Hstep. by step_cases Hstep. Qed.

Lemma pace_sleeping_step delay w a w' :
  PacingInv delay w -> step w a = Some w' ->
  forall after due,
    (after, due) ∈ sleeping w' ->
    exists time succeeded pending,
      (time, Settled after succeeded pending) ∈ trace w'
      /\ pending <> [] /\ due = time + delay.
Proof.
  intros [Hdelay Hsleep Hwake Hrec] Hstep.
  step_cases Hstep; simpl in *; intros after' due' Hin;
    try (apply takeSleeper_elem in Htake as [_ Hsub]; apply Hsub in Hin);
    try (by apply settled_kept, Hsleep).
  - apply elem_of_app in Hin as [Hin|Hin]; [by apply settled_kept, Hsleep|].
    apply list_elem_of_singleton in Hin as [= -> ->].
    exists (clock w), succeeded, (queue (rq w)).
    split; [|by rewrite Hdelay]. apply elem_of_app. right. by left.
  - by apply Hsleep.
  - by apply Hsleep.
Qed.

Lemma pace_wake_step delay w a w' :
  PacingInv delay w -> step w a = Some w' ->
  forall time' entry after,
    (time', Started entry (ByWake after)) ∈ trace w' ->
    exists time succeeded pending,
      (time, Settled after succeeded pending) ∈ trace w'
      /\ pending <> [] /\ time + delay <= time'.
Proof.
  intros [Hdelay Hsleep Hwake Hrec] Hstep.
  step_cases Hstep; simpl in *; intros time' entry' after' Hin;
    try (by apply Hwake in Hin);
    old_or_new Hin; try (by apply settled_kept, (Hwake _ _ _ Hin)).
  injection Hin as -> -> ->.
  apply takeSleeper_elem in Htake as [Hasleep _].
  destruct (Hsleep _ _ Hasleep) as (time & succeeded & pending & Hset & Hne & ->).
  apply settled_kept. by exists time, succeeded, pending.
Qed.

Lemma pace_recursion_step delay w a w' :
  PacingInv delay w -> step w a = Some w' ->
  forall time entry after, (time, Started entry (ByRecursion after)) ∉ trace w'.
Proof.
  intros [Hdelay Hsleep Hwake Hrec] Hstep.
  step_cases Hstep; simpl in *; intros time' entry' after' Hin;
    try (by apply Hrec in Hin);
    old_or_new Hin; by apply Hrec in Hin.
Qed.

Lemma PacingInv_step delay w a w' :
  PacingInv delay w -> step w a = Some w' -> PacingInv delay w'.
Proof.
  intros Hinv Hstep. split.
  - rewrite (delayMs_step w a w' Hstep). apply Hinv.
  - by apply (pace_sleeping_step delay w a).
  - by apply (pace_wake_step delay w a).
  - by apply (pace_recursion_step delay w a).
Qed.

Lemma PacingInv_run c d actions w :
  run (init c d) actions = Some w -> PacingInv d w.
Proof.
  apply (run_invariant (fun _ => true) (PacingInv d)).
  - intros w0 a w1 _. apply PacingInv_step.
  - apply forallb_always.
  - apply PacingInv_init.
Qed.

End QueueFacts.

Section QueueClaims.
Import ApiClient QueueRun.

Example serial_trace :
  run (init 1 500) Samples.serialActions = Some Samples.serialWorld
  /\ trace Samples.serialWorld
     = [(0, Added 0%nat); (0, Started 0%nat ByAdd); (0, Added 1%nat); (0, Added 2%nat);
        (0, Settled 0%nat true [1%nat; 2%nat]); (500, Started 1%nat (ByWake 0%nat));
        (500, Settled 1%nat false [2%nat]); (1000, Started 2%nat (ByWake 1%nat))].
Proof. split; reflexivity. Qed.

Example burst_trace :
  run (init 3 500) Samples.burstActions = Some Samples.burstWorld
  /\ trace Samples.burstWorld
     = [(0, Added 0%nat); (0, Started 0%nat ByAdd);
        (0, Added 1%nat); (0, Started 1%nat ByAdd);
        (0, Added 2%nat); (0, Started 2%nat ByAdd);
        (0, Added 3%nat);
        (100, Settled 0%nat true [3%nat]);
        (600, Settled 1%nat true [3%nat]);
        (600, Started 3%nat (ByWake 0%nat))].
Proof. split; reflexivity. Qed.

(** A width of one does not help: the [process()] call that [add] makes
    does not wait for the sleep in progress. *)
Example late_add_trace :
  run (init 1 500) Samples.lateAddActions = Some Samples.lateAddWorld
  /\ trace Samples.lateAddWorld
     = [(0, Added 0%nat); (0, Started 0%nat ByAdd); (0, Added 1%nat);
        (100, Settled 0%nat true [1%nat]);
        (100, Added 2%nat); (100, Started 1%nat ByAdd)].
Proof. split; reflexivity. Qed.

(** C3. With concurrency 1 and tasks submitted through [add] (no
    [clear()]): entries are numbered in the order of submission, the tasks
    started so far are exactly the first ones submitted, in that order and
    each once, the others are still queued in order; and at the moment a
    task starts, every task submitted before it has already started. Nothing
    is said about the order of completion. (The invariant behind it,
    [FifoInv_run], holds for every width.) *)
Theorem C3_fifo_dispatch_start
        (delay : Z) (actions : list Action) (w : World)
        (pre post : list (Z * Event)) (time : Z) (entry earlier : nat)
        (origin : Origin) :
  forallb (fun a => negb (isClear a)) actions = true ->
  run (init 1 delay) actions = Some w ->
  trace w = pre ++ (time, Started entry origin) :: post ->
  (earlier < entry)%nat ->
  addOrder (trace w) = seq 0 (issued w)
  /\ addOrder (trace w) = startOrder (trace w) ++ queue (rq w)
  /\ NoDup (startOrder (trace w))
  /\ exists time' origin', (time', Started earlier origin') ∈ pre.
Proof.
  intros Hall Hrun Htrace Hlt.
  destruct (FifoInv_run 1 delay actions w Hall Hrun) as [Hadd Hsplit Hbefore].
  repeat split.
  - exact Hadd.
  - by rewrite Hadd, Hsplit.
  - pose proof (NoDup_seq 0 (issued w)) as Hnd. rewrite <- Hsplit in Hnd.
    by apply NoDup_app in Hnd as [Hnd _].
  - assert (earlier ∈ startOrder pre) as Hin.
    { rewrite (Hbefore pre _ post entry Htrace eq_refl). apply elem_of_seq. lia. }
    apply list_elem_of_omap in Hin as ([time' [| entry' origin' |]] & Hin & Hev);
      simpl in Hev; try discriminate Hev.
    injection Hev as ->. by exists time', origin'.
Qed.

Lemma C3_fifo_dispatch_start_witness :
  addOrder (trace Samples.serialWorld) = seq 0 (issued Samples.serialWorld)
  /\ addOrder (trace Samples.serialWorld)
     = startOrder (trace Samples.serialWorld) ++ queue (rq Samples.serialWorld)
  /\ NoDup (startOrder (trace Samples.serialWorld))
  /\ exists time' origin',
      (time', Started 1%nat origin')
        ∈ [(0, Added 0%nat); (0, Started 0%nat ByAdd); (0, Added 1%nat);
           (0, Added 2%nat); (0, Settled 0%nat true [1%nat; 2%nat]);
           (500, Started 1%nat (ByWake 0%nat)); (500, Settled 1%nat false [2%nat])].
Proof.
  apply (C3_fifo_dispatch_start 500 Samples.serialActions Samples.serialWorld
           _ [] 1000 2%nat 1%nat (ByWake 1%nat)).
  - reflexivity.
  - reflexivity.
  - reflexivity.
  - lia.
Defined.

(** C9. After a run in which [add] was called N times, S tasks settled
    successfully and F tasks failed, with nothing queued and no task
    running, [getStats()] returns total=N, success=S, failed=F, queued=0,
    active=0. *)
Theorem C9_stats_consistency
        (c delay : Z) (actions : list Action) (w : World) (N S F : Z) :
  run (init c delay) actions = Some w ->
  countZ isAdded (trace w) = N ->
  countZ (isSettled true) (trace w) = S ->
  countZ (isSettled false) (trace w) = F ->
  queue (rq w) = [] ->
  awaiting w = [] ->
  getStats (rq w) = mkQueueStats N S F 0 0.
Proof.
  intros Hrun HN HS HF Hq Hrunning.
  destruct (StatsInv_run c delay actions w Hrun) as [Ht Hs Hf Ha].
  unfold getStats. rewrite Ht, Hs, Hf, Ha, Hq, Hrunning, HN, HS, HF. reflexivity.
Qed.

Lemma C9_stats_consistency_witness :
  getStats (rq Samples.drainedWorld) = mkQueueStats 4 3 1 0 0.
Proof.
  apply (C9_stats_consistency 3 500 Samples.drainedActions Samples.drainedWorld 4 3 1);
    reflexivity.
Defined.

(** C6, as stated, fails on the default queue (width 3, delay 500 ms):
    task 1 settles at time 600 while task 3 is pending, and task 3 starts
    at that same time 600, because the sleep that followed the settling of
    task 0 at time 100 is over. *)
Lemma C6_counterexample_overlapping_sleeps :
  ~ (forall actions w,
        run (init MAX_CONCURRENT_REQUESTS BATCH_DELAY_MS) actions = Some w ->
        pacedAfterEverySettle BATCH_DELAY_MS w).
Proof.
  intros Hclaim.
  pose proof (Hclaim Samples.burstActions Samples.burstWorld eq_refl
                     600 1%nat true [3%nat] 600 3%nat (ByWake 0%nat)) as Hpaced.
  assert (600 + BATCH_DELAY_MS <= 600) as Hle.
  { apply Hpaced; apply list_elem_of_In; simpl; tauto. }
  unfold BATCH_DELAY_MS in Hle. lia.
Qed.

(** C6, amended. In every reachable state of the queue: a task is started
    only by the [process()] call of an [add] or by a [process()] call made
    after a pacing sleep, and in the second case at least the delay D has
    passed since the task whose settling began that sleep settled, with work
    pending at that moment. Moreover, when a task settles while the queue is
    non-empty, that step starts nothing, leaves the queue as it is and puts
    the resumed call to sleep until D later. *)
Theorem C6_pacing_of_the_resumed_call
        (c delay : Z) (actions : list Action) (w : World) :
  run (init c delay) actions = Some w ->
  (forall time' entry origin,
      (time', Started entry origin) ∈ trace w ->
      origin = ByAdd
      \/ exists after time succeeded pending,
          origin = ByWake after
          /\ (time, Settled after succeeded pending) ∈ trace w
          /\ pending <> []
          /\ time + delay <= time')
  /\ (forall entry succeeded w',
        step w (Settle entry succeeded) = Some w' ->
        queue (rq w) <> [] ->
        trace w' = trace w ++ [(clock w, Settled entry succeeded (queue (rq w)))]
        /\ queue (rq w') = queue (rq w)
        /\ (entry, clock w + delay) ∈ sleeping w').
Proof.
  intros Hrun.
  destruct (PacingInv_run c delay actions w Hrun) as [Hdelay Hsleep Hwake Hrec].
  split.
  - intros time' entry [|after|after] Hin.
    + by left.
    + by apply Hrec in Hin.
    + right. destruct (Hwake _ _ _ Hin) as (time & succeeded & pending & H1 & H2 & H3).
      by exists after, time, succeeded, pending.
  - intros entry succeeded w' Hstep Hne. simpl in Hstep.
    destruct (takeOut entry (awaiting w)) as [others|]; [|discriminate Hstep].
    destruct (resume_cases (rq w) succeeded) as [[_ Hr]|[Hempty _]]; [|done].
    rewrite Hr in Hstep. injection Hstep as <-. simpl.
    repeat split. rewrite Hdelay. apply elem_of_app. right. by left.
Qed.

Lemma C6_pacing_of_the_resumed_call_witness :
  (forall time' entry origin,
      (time', Started entry origin) ∈ trace Samples.burstWorld ->
      origin = ByAdd
      \/ exists after time succeeded pending,
          origin = ByWake after
          /\ (time, Settled after succeeded pending) ∈ trace Samples.burstWorld
          /\ pending <> []
          /\ time + 500 <= time')
  /\ (forall entry succeeded w',
        step Samples.burstWorld (Settle entry succeeded) = Some w' ->
        queue (rq Samples.burstWorld) <> [] ->
        trace w' = trace Samples.burstWorld
                   ++ [(clock Samples.burstWorld,
                        Settled entry succeeded (queue (rq Samples.burstWorld)))]
        /\ queue (rq w') = queue (rq Samples.burstWorld)
        /\ (entry, clock Samples.burstWorld + 500) ∈ sleeping w').
Proof.
  apply (C6_pacing_of_the_resumed_call 3 500 Samples.burstActions Samples.burstWorld).
  reflexivity.
Defined.

End QueueClaims.

(** * Further properties of the code *)

(** ** The identity hash *)

Section HashFacts.
Import StateManager Flow.

Lemma toInt32_range x : - 2 ^ 31 <= Js.toInt32 x < 2 ^ 31.
Proof.
  unfold Js.toInt32. pose proof (Z.mod_pos_bound (x + 2 ^ 31) (2 ^ 32)). lia.
Qed.

Lemma toInt32_unique x y k :
  y = x + 2 ^ 32 * k -> - 2 ^ 31 <= y < 2 ^ 31 -> Js.toInt32 x = y.
Proof.
  intros -> Hy. unfold Js.toInt32.
  replace (x + 2 ^ 31) with ((x + 2 ^ 32 * k + 2 ^ 31) + (- k) * 2 ^ 32) by lia.
  rewrite Z.mod_add by lia. rewrite Z.mod_small; lia.
Qed.

Lemma toInt32_shift x : exists k, Js.toInt32 x = x + 2 ^ 32 * k.
Proof.
  exists (- ((x + 2 ^ 31) / 2 ^ 32)). unfold Js.toInt32.
  pose proof (Z.div_mod (x + 2 ^ 31) (2 ^ 32)). lia.
Qed.

Lemma toInt32_congr x y k : y = x + 2 ^ 32 * k -> Js.toInt32 y = Js.toInt32 x.
Proof.
  intros ->. destruct (toInt32_shift x) as [k' Hk'].
  apply (toInt32_unique _ _ (k' - k)); [lia | apply toInt32_range].
Qed.

(** One round of the loop is [31 * hash + char], wrapped to 32 bits. *)
Lemma hashStep_31 hash char : hashStep hash char = Js.toInt32 (31 * hash + char).
Proof.
  unfold hashStep, Js.band, Js.shl. rewrite Z.land_diag, Z.shiftl_mul_pow2 by lia.
  destruct (toInt32_shift hash) as [k1 H1].
  destruct (toInt32_shift (Js.toInt32 hash * 2 ^ 5)) as [k2 H2].
  set (hash1 := Js.toInt32 (Js.toInt32 hash * 2 ^ 5) - hash + char) in *.
  destruct (toInt32_shift hash1) as [k3 H3].
  destruct (toInt32_shift (Js.toInt32 hash1)) as [k4 H4].
  symmetry. apply (toInt32_unique _ _ (32 * k1 + k2 + k3 + k4));
    [|apply toInt32_range].
  subst hash1. lia.
Qed.

Lemma fold_left_step {A B} (f : A -> B -> A) (x : B) (l : list B) (a : A) :
  fold_left f (x :: l) a = fold_left f l (f a x).
Proof. reflexivity. Qed.

Lemma hash_fold_congr codes : forall h h' k,
  h = h' + 2 ^ 32 * k ->
  exists k', fold_left hashStep codes h
             = fold_left (fun h c => 31 * h + c) codes h' + 2 ^ 32 * k'.
Proof.
  induction codes as [|c codes IH]; intros h h' k Hk.
  - by exists k.
  - rewrite !fold_left_step, hashStep_31.
    destruct (toInt32_shift (31 * h + c)) as [k1 H1].
    apply (IH _ _ (31 * k + k1)). lia.
Qed.

Lemma hash_fold_range codes : forall h,
  - 2 ^ 31 <= h < 2 ^ 31 -> - 2 ^ 31 <= fold_left hashStep codes h < 2 ^ 31.
Proof.
  induction codes as [|c codes IH]; intros h Hh; [exact Hh|].
  rewrite fold_left_step. apply IH. rewrite hashStep_31. apply toInt32_range.
Qed.

Lemma append_cons x a b : String x a +:+ b = String x (a +:+ b).
Proof. reflexivity. Qed.

Lemma append_assoc a b c : (a +:+ b) +:+ c = a +:+ (b +:+ c).
Proof. induction a as [|x a IH]; [done|]. by rewrite !append_cons, IH. Qed.

Lemma charCodes_app a b : Js.charCodes (a +:+ b) = Js.charCodes a ++ Js.charCodes b.
Proof. induction a as [|c a IH]; [done|]. rewrite append_cons. simpl. by rewrite IH. Qed.

(** X1. [simpleHash] is the textbook polynomial string hash
    [c0 * 31^(n-1) + ... + c(n-1)] reduced to a signed 32-bit integer and
    written in base 36: the running value always stays in the 32-bit range. *)
Theorem simpleHash_polynomial (str : string) :
  simpleHash str = Js.toString36 (hashValue str)
  /\ hashValue str = Js.toInt32 (polynomial (Js.charCodes str))
  /\ - 2 ^ 31 <= hashValue str < 2 ^ 31.
Proof.
  assert (- 2 ^ 31 <= hashValue str < 2 ^ 31) as Hrange
    by (apply hash_fold_range; lia).
  repeat split; try apply Hrange.
  destruct (hash_fold_congr (Js.charCodes str) 0 0 0) as [k Hk]; [lia|].
  symmetry. apply (toInt32_unique _ _ k); [exact Hk | exact Hrange].
Qed.

Lemma hashValue_collides p s :
  hashValue (p +:+ "Aa" +:+ s) = hashValue (p +:+ "BB" +:+ s).
Proof.
  unfold hashValue. rewrite !charCodes_app, !fold_left_app.
  f_equal. change (Js.charCodes "Aa") with [65; 97].
  change (Js.charCodes "BB") with [66; 66]. cbn [fold_left]. rewrite !hashStep_31.
  set (h := fold_left hashStep (Js.charCodes p) 0).
  destruct (toInt32_shift (31 * h + 65)) as [k1 H1].
  destruct (toInt32_shift (31 * h + 66)) as [k2 H2].
  rewrite H1, H2. apply (toInt32_congr _ _ (31 * (k1 - k2))). lia.
Qed.

(** X2. The hash collides on locators that differ only by "Aa" against
    "BB": two such images of equal dimensions have the same identity, so once
    one of them is marked processed the other one is reported processed too. *)
Theorem hash_collision_skips_distinct_image
        (t : ProcessedImageTracker) (img other : Image) (p s description : string)
        (now : Z) :
  src img = p +:+ "Aa" +:+ s ->
  src other = p +:+ "BB" +:+ s ->
  naturalWidth other = naturalWidth img ->
  naturalHeight other = naturalHeight img ->
  src other <> src img
  /\ getImageHash other = getImageHash img
  /\ isProcessed (markProcessed t img description now) other = true.
Proof.
  intros Himg Hother Hw Hh.
  assert (getImageHash other = getImageHash img) as Hhash.
  { unfold getImageHash, imageKey, simpleHash. rewrite Himg, Hother, Hw, Hh.
    rewrite !append_assoc.
    exact (f_equal Js.toString36 (eq_sym (hashValue_collides p _))). }
  repeat split; [|exact Hhash|].
  - rewrite Himg, Hother. clear. induction p as [|c p IH]; [discriminate|].
    rewrite !append_cons. intros [= Heq]. by apply IH.
  - apply isProcessed_of_hash. rewrite Hhash, markProcessed_hashes.
    apply elem_of_union_l, elem_of_singleton. reflexivity.
Qed.

End HashFacts.

Lemma hash_collision_skips_distinct_image_witness :
  StateManager.src Cases.pictureBB <> StateManager.src Cases.pictureAa
  /\ StateManager.getImageHash Cases.pictureBB = StateManager.getImageHash Cases.pictureAa
  /\ StateManager.isProcessed
       (StateManager.markProcessed StateManager.create Cases.pictureAa "a mountain" 1000)
       Cases.pictureBB = true.
Proof.
  apply (hash_collision_skips_distinct_image StateManager.create Cases.pictureAa
           Cases.pictureBB "http://example.com/" ".jpg" "a mountain" 1000);
    reflexivity.
Defined.

(** ** The tracker along the code paths of processSingleImage *)

Section FlowFacts.
Import StateManager ImageProcessor Flow.

Lemma isProcessed_ext t1 t img :
  processedImages t1 = processedImages t ->
  processedHashes t1 = processedHashes t ->
  isProcessed t1 img = isProcessed t img.
Proof. unfold isProcessed. by intros -> ->. Qed.

Lemma enter_true t img :
  (enter t img).2 = true <-> isProcessed t img = false /\ isInFlight t img = false.
Proof.
  unfold enter. destruct (isProcessed t img), (isInFlight t img); simpl; intuition congruence.
Qed.

Lemma enter_tracker t img :
  (enter t img).1 = if (enter t img).2 then markInFlight t img else t.
Proof. unfold enter. by destruct (isProcessed t img), (isInFlight t img). Qed.

(** [enter] is the head of [processSingleImage]. *)
Lemma processSingleImage_head env api now t img later :
  processSingleImage env api now t img later
  = if (enter t img).2
    then (afterConversion api now (enter t img).1 (reread img (whenConverted later))
                          (whenDescribed later)
                          (ImageConverter.convertImageToBase64 env img).1,
          (ImageConverter.convertImageToBase64 env img).2)
    else (mkRun Returned t img [], []).
Proof.
  unfold processSingleImage, enter.
  destruct (isProcessed t img); [done|]. destruct (isInFlight t img); [done|].
  simpl. by destruct (ImageConverter.convertImageToBase64 env img).
Qed.

Lemma unmark_restores t img img' :
  getImageHash img' = getImageHash img ->
  getImageHash img ∉ inFlight t -> clearInFlight (markInFlight t img) img' = t.
Proof.
  intros Hsame Hfree. destruct t as [images hashes flights].
  unfold clearInFlight, markInFlight. simpl in *. rewrite Hsame. f_equal. set_solver.
Qed.

Lemma markProcessed_after_mark t img img' d now :
  getImageHash img' = getImageHash img ->
  markProcessed (markInFlight t img) img' d now = markProcessed t img' d now.
Proof.
  intros Hhash. unfold markProcessed, clearInFlight, markInFlight. simpl.
  f_equal. rewrite Hhash. set_solver.
Qed.

(** X3. A [processSingleImage] call that finds the image not in flight, on
    an element that shows the same locator and natural size at each
    resumption as at the call, ends in one of three ways: the tracker is as
    before and the call wrote nothing to the element (early return, oversize
    skip or thrown error); or the element carries the description in alt and
    title, is marked processed and exactly one payload was handed to the
    queue; or the call is still waiting for the queue and the image is in
    flight. *)
Theorem processing_is_all_or_nothing
        (env : ImageConverter.Env) (api : string -> option (Result string))
        (now : Z) (t : ProcessedImageTracker) (img : Image) (later : Later) :
  isInFlight t img = false ->
  getImageHash (reread img (whenConverted later)) = getImageHash img ->
  getImageHash (reread img (whenDescribed later)) = getImageHash img ->
  (completion (processSingleImage env api now t img later).1 <> Suspended
   /\ tracker (processSingleImage env api now t img later).1 = t
   /\ (image (processSingleImage env api now t img later).1 = img
       \/ image (processSingleImage env api now t img later).1
          = reread img (whenConverted later)
       \/ image (processSingleImage env api now t img later).1
          = reread img (whenDescribed later)))
  \/ (exists description base64,
        completion (processSingleImage env api now t img later).1 = Returned
        /\ image (processSingleImage env api now t img later).1
           = describe (reread img (whenDescribed later)) description
        /\ tracker (processSingleImage env api now t img later).1
           = markProcessed t (describe (reread img (whenDescribed later)) description)
                           description now
        /\ submitted (processSingleImage env api now t img later).1 = [base64])
  \/ (completion (processSingleImage env api now t img later).1 = Suspended
      /\ tracker (processSingleImage env api now t img later).1 = markInFlight t img
      /\ image (processSingleImage env api now t img later).1
         = reread img (whenConverted later)).
Proof.
  intros Hfree Hconverted Hdescribed.
  pose proof (proj1 (isInFlight_false t img) Hfree) as Hnot.
  rewrite processSingleImage_head.
  destruct ((enter t img).2) eqn:Hgo; cbn [fst].
  - rewrite enter_tracker, Hgo.
    change (reread img (whenDescribed later))
      with (reread (reread img (whenConverted later)) (whenDescribed later))
      in Hdescribed |- *.
    revert Hconverted Hdescribed.
    generalize (reread img (whenConverted later)) as img1.
    generalize (whenDescribed later) as described.
    generalize ((ImageConverter.convertImageToBase64 env img).1) as converted.
    intros converted described img1 Hconverted Hdescribed.
    unfold afterConversion. destruct converted as [base64|e].
    + destruct (negb _).
      * left. cbn [completion tracker image].
        repeat apply conj; [discriminate | by apply unmark_restores | right; by left].
      * destruct (api base64) as [[description|e]|].
        -- right. left. exists description, base64.
           cbn [afterDescription completion tracker image submitted].
           repeat apply conj; try reflexivity.
           apply markProcessed_after_mark. exact Hdescribed.
        -- left. cbn [afterDescription catchBlock completion tracker image].
           repeat apply conj;
             [discriminate | by apply unmark_restores | right; by right].
        -- right. right. cbn [completion tracker image]. by repeat apply conj.
    + left. cbn [catchBlock completion tracker image].
      repeat apply conj; [discriminate | by apply unmark_restores | right; by left].
  - left. cbn [completion tracker image].
    repeat apply conj; [discriminate | reflexivity | by left].
Qed.

Lemma processing_is_all_or_nothing_witness :
  completion (processSingleImage Samples.offline Samples.answering 1000 create
                                 Samples.cat (unchanged Samples.cat)).1
  <> Suspended
  /\ tracker (processSingleImage Samples.offline Samples.answering 1000 create
                                 Samples.cat (unchanged Samples.cat)).1
     = create
  /\ image (processSingleImage Samples.offline Samples.answering 1000 create
                               Samples.cat (unchanged Samples.cat)).1
     = Samples.cat.
Proof.
  destruct (processing_is_all_or_nothing Samples.offline Samples.answering 1000 create
              Samples.cat (unchanged Samples.cat))
    as [(Hend & Hsame & _)|[(d & b & Hend & _)|(Hend & _)]].
  - vm_compute. reflexivity.
  - reflexivity.
  - reflexivity.
  - repeat apply conj; [exact Hend | exact Hsame | reflexivity].
  - vm_compute in Hend. discriminate Hend.
  - vm_compute in Hend. discriminate Hend.
Defined.

End FlowFacts.

Section BatchFacts.
Import StateManager ImageProcessor Flow.

Lemma enterAll_cons t img rest :
  enterAll t (img :: rest)
  = ((enterAll (enter t img).1 rest).1,
     if (enter t img).2 then img :: (enterAll (enter t img).1 rest).2
     else (enterAll (enter t img).1 rest).2).
Proof.
  simpl. destruct (enter t img) as [t1 go]. simpl.
  by destruct (enterAll t1 rest).
Qed.

Lemma enterAll_spec images : forall t,
  processedImages (enterAll t images).1 = processedImages t
  /\ processedHashes (enterAll t images).1 = processedHashes t
  /\ inFlight (enterAll t images).1
     = inFlight t ∪ list_to_set (getImageHash <$> (enterAll t images).2)
  /\ NoDup (getImageHash <$> (enterAll t images).2)
  /\ (forall img, img ∈ (enterAll t images).2 ->
        img ∈ images /\ isProcessed t img = false /\ isInFlight t img = false)
  /\ (forall img, img ∈ images ->
        isProcessed (enterAll t images).1 img = true
        \/ isInFlight (enterAll t images).1 img = true).
Proof.
  induction images as [|img rest IH]; intros t.
  - simpl. repeat apply conj; [done | done | set_solver | apply NoDup_nil_2 | |];
      intros img Hin; by apply elem_of_nil in Hin.
  - rewrite enterAll_cons. simpl.
    destruct (IH (enter t img).1) as (Himgs & Hhashes & Hfl & Hnd & Hadm & Hcov).
    rewrite enter_tracker in *.
    destruct ((enter t img).2) eqn:Hgo.
    + apply enter_true in Hgo as [Hnew Hfree]. simpl in *.
      repeat apply conj; [done | done | | | |].
      * rewrite Hfl. set_solver.
      * apply NoDup_cons. split; [|done].
        intros (other & Hsame & Hin)%list_elem_of_fmap.
        destruct (Hadm other Hin) as (_ & _ & Hother).
        apply isInFlight_false in Hother. apply Hother. rewrite <- Hsame. set_solver.
      * intros other [->|Hin]%elem_of_cons; [by repeat apply conj; [left|..]|].
        destruct (Hadm other Hin) as (Hrest & Hp & Hf).
        repeat apply conj; [by right | done |].
        apply isInFlight_false. apply isInFlight_false in Hf. set_solver.
      * intros other [->|Hin]%elem_of_cons; [|by apply Hcov].
        right. unfold isInFlight. apply bool_decide_eq_true. rewrite Hfl. set_solver.
    + repeat apply conj; [done | done | done | done | |].
      * intros other Hin. destruct (Hadm other Hin) as (Hrest & Hp & Hf).
        repeat apply conj; [by right | done | done].
      * intros other [->|Hin]%elem_of_cons; [|by apply Hcov].
        assert (isProcessed t img = true \/ isInFlight t img = true) as [Hp|Hf].
        { destruct (isProcessed t img) eqn:Hp; [by left|].
          destruct (isInFlight t img) eqn:Hf; [by right|].
          assert ((enter t img).2 = true) by (by apply enter_true). congruence. }
        -- left. by rewrite (isProcessed_ext _ t).
        -- right. unfold isInFlight in *. apply bool_decide_eq_true.
           apply bool_decide_eq_true in Hf. rewrite Hfl. set_solver.
Qed.

(** X4. In one [processImages] batch, the calls that get past the dedup
    tests are for pairwise distinct identities, none of them processed or in
    flight before the batch; when the batch's heads have run, exactly these
    identities were added to the in-flight set, the processed records are
    untouched, and every meaningful image of the batch is either processed or
    in flight. *)
Theorem batch_admits_each_identity_once
        (isMeaningfulImage : Image -> bool) (t : ProcessedImageTracker)
        (images : list Image) :
  NoDup (getImageHash <$> (processImages isMeaningfulImage t images).2)
  /\ (forall img, img ∈ (processImages isMeaningfulImage t images).2 ->
        img ∈ images /\ isMeaningfulImage img = true
        /\ isProcessed t img = false /\ isInFlight t img = false)
  /\ inFlight (processImages isMeaningfulImage t images).1
     = inFlight t
       ∪ list_to_set (getImageHash <$> (processImages isMeaningfulImage t images).2)
  /\ processedImages (processImages isMeaningfulImage t images).1 = processedImages t
  /\ processedHashes (processImages isMeaningfulImage t images).1 = processedHashes t
  /\ (forall img, img ∈ images -> isMeaningfulImage img = true ->
        isProcessed (processImages isMeaningfulImage t images).1 img = true
        \/ isInFlight (processImages isMeaningfulImage t images).1 img = true).
Proof.
  unfold processImages.
  destruct (enterAll_spec (List.filter isMeaningfulImage images) t)
    as (Himgs & Hhashes & Hfl & Hnd & Hadm & Hcov).
  repeat apply conj; try done.
  - intros img Hin. destruct (Hadm img Hin) as (Hfiltered & Hp & Hf).
    apply list_elem_of_In, filter_In in Hfiltered as [Hfrom Hm].
    repeat apply conj; [by apply list_elem_of_In | done | done | done].
  - intros img Hin Hm. apply Hcov, list_elem_of_In, filter_In.
    split; [by apply list_elem_of_In | done].
Qed.

(** A batch with the same picture in two elements. *)
Example batch_of_duplicates :
  (processImages (fun _ => true) create [Samples.cat; Samples.dog; Samples.catAgain]).2
  = [Samples.cat; Samples.dog].
Proof. vm_compute. reflexivity. Qed.

End BatchFacts.

Section TrackerInvariants.
Import StateManager ImageProcessor Flow.

Lemma isProcessed_false t img :
  isProcessed t img = false
  <-> processedImages t !! elem img = None /\ getImageHash img ∉ processedHashes t.
Proof.
  unfold isProcessed. destruct (processedImages t !! elem img) as [p|] eqn:Hp.
  - rewrite bool_decide_eq_true_2 by eauto. split; [done | by intros [[=] _]].
  - rewrite bool_decide_eq_false_2 by (by intros [? [=]]).
    destruct (bool_decide_reflect (getImageHash img ∈ processedHashes t)); split;
      try done; by intros [_ ?].
Qed.

(** How each step treats an image of another identity in another element. *)
Lemma step_frame t s other :
  getImageHash other <> getImageHash (stepImage s) ->
  elem other <> elem (stepImage s) ->
  isProcessed (step t s) other = isProcessed t other
  /\ isInFlight (step t s) other = isInFlight t other.
Proof.
  intros Hhash Helem. destruct s as [img|img|img d now]; simpl in *.
  - rewrite enter_tracker. destruct ((enter t img).2); [|done].
    split; [done|]. unfold isInFlight. apply bool_decide_ext. set_solver.
  - split; [done|]. unfold isInFlight. apply bool_decide_ext. set_solver.
  - split.
    + unfold isProcessed, markProcessed. simpl.
      change (getImageHash (describe img d)) with (getImageHash img).
      rewrite lookup_insert_ne by done.
      destruct (bool_decide (is_Some _)); [done|].
      rewrite (bool_decide_ext _ (getImageHash other ∈ processedHashes t)); [done|].
      set_solver.
    + unfold isInFlight. apply bool_decide_ext. simpl.
      change (getImageHash (describe img d)) with (getImageHash img). set_solver.
Qed.

(** The tracker after a call is the tracker before it, changed by at most
    two steps, each of them on the call's element as it is at the call or at
    one of the two resumptions. *)
Lemma processSingleImage_steps env api now t img later :
  exists l,
    tracker (processSingleImage env api now t img later).1 = steps t l
    /\ Forall (fun s => stepImage s = img
                        \/ stepImage s = reread img (whenConverted later)
                        \/ stepImage s = reread img (whenDescribed later)) l.
Proof.
  rewrite processSingleImage_head. destruct ((enter t img).2) eqn:Hgo.
  - simpl. unfold afterConversion.
    destruct (ImageConverter.convertImageToBase64 env img).1 as [base64|e].
    + destruct (negb _).
      * exists [Entered img; Cleared (reread img (whenConverted later))].
        split; [done|]. repeat constructor; tauto.
      * destruct (api base64) as [[d|e]|].
        -- exists [Entered img; Marked (reread img (whenDescribed later)) d now].
           split; [done|]. repeat constructor; tauto.
        -- exists [Entered img; Cleared (reread img (whenDescribed later))].
           split; [done|]. repeat constructor; tauto.
        -- exists [Entered img]. split; [done|]. repeat constructor; tauto.
    + exists [Entered img; Cleared (reread img (whenConverted later))].
      split; [done|]. repeat constructor; tauto.
  - exists [Entered img]. split; [|repeat constructor; tauto].
    simpl. unfold steps. simpl. by rewrite enter_tracker, Hgo.
Qed.

(** X5. A [processSingleImage] call, however it ends, leaves the tracker's
    answers about every other element whose identity is none of those the
    call's element shows (at the call and at its two resumptions) as they
    were: what is processed stays processed, what is in flight stays in
    flight, and nothing else becomes either. *)
Theorem processing_leaves_other_identities_alone
        (env : ImageConverter.Env) (api : string -> option (Result string))
        (now : Z) (t : ProcessedImageTracker) (img other : Image) (later : Later) :
  getImageHash other <> getImageHash img ->
  getImageHash other <> getImageHash (reread img (whenConverted later)) ->
  getImageHash other <> getImageHash (reread img (whenDescribed later)) ->
  elem other <> elem img ->
  isProcessed (tracker (processSingleImage env api now t img later).1) other
  = isProcessed t other
  /\ isInFlight (tracker (processSingleImage env api now t img later).1) other
     = isInFlight t other.
Proof.
  intros Hhash Hconverted Hdescribed Helem.
  destruct (processSingleImage_steps env api now t img later) as (l & -> & Hl).
  clear env api. revert t. induction Hl as [|s l Hs Hl IH]; intros t; [done|].
  unfold steps in *. simpl.
  assert (getImageHash other <> getImageHash (stepImage s)
          /\ elem other <> elem (stepImage s)) as [Hh He].
  { destruct Hs as [-> | [-> | ->]].
    - split; [exact Hhash | exact Helem].
    - split; [exact Hconverted | exact Helem].
    - split; [exact Hdescribed | exact Helem]. }
  destruct (step_frame t s other Hh He) as [<- <-]. apply IH.
Qed.

Lemma processing_leaves_other_identities_alone_witness :
  isProcessed (tracker (processSingleImage Samples.offline Samples.answering 2000
                          (markInFlight create Samples.dog) Samples.preview
                          Samples.swapped).1) Samples.dog
  = isProcessed (markInFlight create Samples.dog) Samples.dog
  /\ isInFlight (tracker (processSingleImage Samples.offline Samples.answering 2000
                            (markInFlight create Samples.dog) Samples.preview
                            Samples.swapped).1) Samples.dog
     = isInFlight (markInFlight create Samples.dog) Samples.dog.
Proof.
  apply (processing_leaves_other_identities_alone Samples.offline Samples.answering 2000
           (markInFlight create Samples.dog) Samples.preview Samples.dog
           Samples.swapped).
  - vm_compute. discriminate.
  - vm_compute. discriminate.
  - vm_compute. discriminate.
  - vm_compute. discriminate.
Defined.

Lemma step_disjoint t s :
  inFlight t ## processedHashes t -> inFlight (step t s) ## processedHashes (step t s).
Proof.
  intros Hdisj. destruct s as [img|img|img d now]; simpl.
  - rewrite enter_tracker. destruct ((enter t img).2) eqn:Hgo; [|done].
    apply enter_true in Hgo as [[_ Hnew]%isProcessed_false _]. simpl. set_solver.
  - set_solver.
  - change (getImageHash (describe img d)) with (getImageHash img). set_solver.
Qed.

(** X6. Whatever calls of [processSingleImage] have run, completed or not
    and in whatever interleaving, no identity is in the in-flight set and in
    the processed set at once. *)
Theorem in_flight_and_processed_are_disjoint (l : list Step) :
  inFlight (steps create l) ## processedHashes (steps create l).
Proof.
  unfold steps. assert (inFlight create ## processedHashes create) as Hinit
    by (simpl; set_solver).
  revert Hinit. generalize create as t.
  induction l as [|s l IH]; intros t Ht; [done|]. simpl. by apply IH, step_disjoint.
Qed.

(** X7. [clear()] forgets the hashes but not the elements: the element that
    was marked processed is still reported processed and its stored
    description is still compared by [shouldReprocess], whereas another
    element showing the same picture is no longer recognised; both counts
    drop to zero. *)
Theorem clear_forgets_hashes_not_elements
        (t : ProcessedImageTracker) (img other : Image) (description : string)
        (now : Z) :
  isProcessed (clear (markProcessed t img description now)) img = true
  /\ shouldReprocess (clear (markProcessed t img description now)) img
     = negb (String.eqb (alt img) description)
  /\ (processedImages t !! elem other = None -> elem other <> elem img ->
      isProcessed (clear (markProcessed t img description now)) other = false)
  /\ getStats (clear (markProcessed t img description now)) = mkTrackerStats 0 0.
Proof.
  repeat apply conj.
  - unfold isProcessed. simpl. rewrite lookup_insert_eq.
    by rewrite bool_decide_eq_true_2 by eauto.
  - unfold shouldReprocess. simpl. by rewrite lookup_insert_eq.
  - intros Hnone Hne. apply isProcessed_false. simpl.
    rewrite lookup_insert_ne by done. split; [done | set_solver].
  - reflexivity.
Qed.

(** A re-created element with the picture of a processed one, after
    [clear()]. *)
Example clear_then_recreated_element :
  isProcessed (clear (markProcessed create Samples.cat "a cat on a sofa" 1000))
              Samples.catAgain = false
  /\ isProcessed (markProcessed create Samples.cat "a cat on a sofa" 1000)
                 Samples.catAgain = true.
Proof. vm_compute. split; reflexivity. Qed.

(** X8. After a successful call the element is consistent with its record:
    [shouldReprocess] is false. If the page later changes the alt text,
    [shouldReprocess] turns true, but [processSingleImage] does not consult
    it: the element is still reported processed and a new call returns at
    once without converting or submitting anything. *)
Theorem changed_alt_is_flagged_but_skipped
        (env : ImageConverter.Env) (api : string -> option (Result string))
        (now now' : Z) (t : ProcessedImageTracker) (img later : Image)
        (page : Later) (base64 description : string) :
  elem later = elem img ->
  shouldReprocess (tracker (afterDescription now t img base64 (Ok description)))
                  (image (afterDescription now t img base64 (Ok description))) = false
  /\ shouldReprocess (tracker (afterDescription now t img base64 (Ok description))) later
     = negb (String.eqb (alt later) description)
  /\ processSingleImage env api now'
       (tracker (afterDescription now t img base64 (Ok description))) later page
     = (mkRun Returned (tracker (afterDescription now t img base64 (Ok description)))
              later [], []).
Proof.
  intros Helem. simpl. unfold shouldReprocess, processSingleImage, isProcessed. simpl.
  rewrite Helem, !lookup_insert_eq. simpl.
  rewrite String.eqb_refl. by repeat apply conj.
Qed.

Lemma changed_alt_is_flagged_but_skipped_witness :
  shouldReprocess
    (tracker (afterDescription 1000 create Samples.cat Samples.jpeg (Ok "a cat on a sofa")))
    (image (afterDescription 1000 create Samples.cat Samples.jpeg (Ok "a cat on a sofa")))
  = false
  /\ shouldReprocess
       (tracker (afterDescription 1000 create Samples.cat Samples.jpeg (Ok "a cat on a sofa")))
       Cases.catRetitled
     = negb (String.eqb (alt Cases.catRetitled) "a cat on a sofa")
  /\ processSingleImage Samples.offline Samples.answering 2000
       (tracker (afterDescription 1000 create Samples.cat Samples.jpeg (Ok "a cat on a sofa")))
       Cases.catRetitled (unchanged Cases.catRetitled)
     = (mkRun Returned
              (tracker (afterDescription 1000 create Samples.cat Samples.jpeg
                                         (Ok "a cat on a sofa")))
              Cases.catRetitled [], []).
Proof.
  apply (changed_alt_is_flagged_but_skipped Samples.offline Samples.answering 1000 2000
           create Samples.cat Cases.catRetitled (unchanged Cases.catRetitled)
           Samples.jpeg "a cat on a sofa").
  reflexivity.
Defined.

(** X9. [getStats] counts identities, not elements or calls: marking an
    identity that is already processed (or already in flight) leaves the
    count as it is, a new identity raises it by one, and [clearInFlight]
    lowers the in-flight count by one exactly when the identity was in
    flight. *)
Theorem tracker_counts_identities
        (t : ProcessedImageTracker) (img : Image) (description : string) (now : Z) :
  processedCount (getStats (markProcessed t img description now))
  = (if bool_decide (getImageHash img ∈ processedHashes t)
     then processedCount (getStats t) else S (processedCount (getStats t)))
  /\ inFlightCount (getStats (markInFlight t img))
     = (if isInFlight t img
        then inFlightCount (getStats t) else S (inFlightCount (getStats t)))
  /\ (if isInFlight t img
      then S (inFlightCount (getStats (clearInFlight t img))) = inFlightCount (getStats t)
      else inFlightCount (getStats (clearInFlight t img)) = inFlightCount (getStats t)).
Proof.
  unfold isInFlight. simpl. repeat apply conj.
  - destruct (bool_decide_reflect (getImageHash img ∈ processedHashes t)) as [Hin|Hout].
    + f_equal. set_solver.
    + rewrite size_union by set_solver. by rewrite size_singleton.
  - destruct (bool_decide_reflect (getImageHash img ∈ inFlight t)) as [Hin|Hout].
    + f_equal. set_solver.
    + rewrite size_union by set_solver. by rewrite size_singleton.
  - destruct (bool_decide_reflect (getImageHash img ∈ inFlight t)) as [Hin|Hout].
    + pose proof (size_union ({[getImageHash img]} : gset string)
                             (inFlight t ∖ {[getImageHash img]})) as Hsize.
      rewrite <- union_difference_singleton_L, size_singleton in Hsize by done.
      rewrite Hsize; [done | set_solver].
    + f_equal. set_solver.
Qed.

End TrackerInvariants.

(** ** Data URLs: base64ToBlob and getBase64Size *)

Section DataUrlFacts.
Import ImageConverter.

Lemma count_nonneg c s : 0 <= Js.count c s.
Proof. induction s as [|a s IH]; simpl; [done|]. destruct (Ascii.eqb a c); lia. Qed.

Lemma count_append c a b : Js.count c (a +:+ b) = Js.count c a + Js.count c b.
Proof.
  induction a as [|x a IH]; [done|]. rewrite append_cons. simpl. rewrite IH.
  destruct (Ascii.eqb x c); lia.
Qed.

Lemma count_cons_zero c a s :
  Js.count c (String a s) = 0 -> Ascii.eqb a c = false /\ Js.count c s = 0.
Proof.
  simpl. pose proof (count_nonneg c s). destruct (Ascii.eqb a c); [lia|]. split; [done | lia].
Qed.

Lemma length_append a b : Js.length (a +:+ b) = Js.length a + Js.length b.
Proof.
  unfold Js.length. induction a as [|x a IH].
  - change ("" +:+ b) with b. simpl. lia.
  - rewrite append_cons. simpl String.length. lia.
Qed.

Lemma split_nonempty c s : split c s <> [].
Proof.
  destruct s as [|a s]; simpl; [done|].
  destruct (split c s); [done|]. by destruct (Ascii.eqb a c).
Qed.

Lemma split_without c s : Js.count c s = 0 -> split c s = [s].
Proof.
  induction s as [|a s IH]; [done|].
  intros [Hne Hs]%count_cons_zero. simpl. by rewrite (IH Hs), Hne.
Qed.

Lemma split_at_first c a b :
  Js.count c a = 0 -> split c (a +:+ String c b) = a :: split c b.
Proof.
  induction a as [|x a IH].
  - intros _. simpl. rewrite Ascii.eqb_refl.
    pose proof (split_nonempty c b). by destruct (split c b).
  - intros [Hne Ha]%count_cons_zero. rewrite append_cons. simpl.
    by rewrite (IH Ha), Hne.
Qed.

Lemma length_split c s : Z.of_nat (length (split c s)) = Js.count c s + 1.
Proof.
  induction s as [|a s IH]; [done|]. simpl.
  pose proof (split_nonempty c s) as Hne.
  destruct (split c s) as [|part parts]; [done|].
  destruct (Ascii.eqb a c); simpl in *; lia.
Qed.



(** X10. [base64ToBlob] throws "Invalid base64 format" for every string
    that does not contain exactly one comma, whatever the decoder would do:
    a bare base64 string, and a data URL with a comma in its header or data,
    are both rejected before anything is decoded. *)
Theorem base64ToBlob_needs_one_comma
        (atob : string -> Result string) (base64 : string) :
  Js.count "," base64 <> 1 ->
  base64ToBlob atob base64 = Throw (Error "Invalid base64 format").
Proof.
  intros Hcount. unfold base64ToBlob.
  pose proof (length_split "," base64) as Hlen.
  destruct (split "," base64) as [|a [|b [|c l]]]; simpl in Hlen; try done. lia.
Qed.

Lemma base64ToBlob_needs_one_comma_witness :
  base64ToBlob (fun data => Ok data) "iVBORw0KGgo="
  = Throw (Error "Invalid base64 format").
Proof.
  apply (base64ToBlob_needs_one_comma (fun data => Ok data) "iVBORw0KGgo=").
  vm_compute. discriminate.
Defined.



Lemma indexOf_first c a b i :
  Js.count c a = 0 -> Js.indexOf_from c (a +:+ String c b) i = i + Js.length a.
Proof.
  revert i. induction a as [|x a IH]; intros i.
  - intros _. simpl. rewrite Ascii.eqb_refl. unfold Js.length. simpl. lia.
  - intros [Hne Ha]%count_cons_zero. rewrite append_cons. simpl. rewrite Hne, (IH _ Ha).
    unfold Js.length. simpl String.length. lia.
Qed.

Lemma indexOf_lower c s i : - 1 <= i -> - 1 <= Js.indexOf_from c s i.
Proof.
  revert i. induction s as [|a s IH]; intros i Hi; simpl; [lia|].
  destruct (Ascii.eqb a c); [lia | apply IH; lia].
Qed.

Lemma ceilDiv4_bounds n : n <= 4 * ceilDiv4 n < n + 4.
Proof.
  unfold ceilDiv4. pose proof (Z.div_mod (- n) 4). pose proof (Z.mod_pos_bound (- n) 4). lia.
Qed.

(** X12. For a data URL [<header>,<data>] with no comma in the header,
    [getBase64Size] is [ceil(3 * |data| / 4)] minus the number of "=" signs in
    the whole string, header included. When the data has the standard length
    [4k] and the header contains no "=", this is [3k] minus the padding, the
    number of bytes the data encodes. *)
Theorem getBase64Size_of_data_url (header data : string) (k : Z) :
  Js.count "," header = 0 ->
  getBase64Size (header +:+ "," +:+ data)
  = ceilDiv4 (Js.length data * 3) - Js.count "=" header - Js.count "=" data
  /\ (Js.length data = 4 * k -> Js.count "=" header = 0 ->
      getBase64Size (header +:+ "," +:+ data) = 3 * k - Js.count "=" data).
Proof.
  intros Hheader.
  assert (getBase64Size (header +:+ "," +:+ data)
          = ceilDiv4 (Js.length data * 3) - Js.count "=" header - Js.count "=" data)
    as Hsize.
  { unfold getBase64Size, Js.indexOf.
    change (header +:+ "," +:+ data) with (header +:+ String "," data).
    rewrite indexOf_first by done. rewrite count_append, length_append.
    change (Js.count "=" (String "," data)) with (0 + Js.count "=" data).
    replace (Js.length (String "," data)) with (1 + Js.length data)
      by (unfold Js.length; simpl String.length; lia).
    replace (Js.length header + (1 + Js.length data) - (0 + Js.length header) - 1)
      with (Js.length data) by lia.
    lia. }
  split; [exact Hsize|]. intros Hlen Hpad. rewrite Hsize, Hlen, Hpad.
  pose proof (ceilDiv4_bounds (4 * k * 3)). lia.
Qed.

Lemma getBase64Size_of_data_url_witness :
  getBase64Size ("data:image/png;base64" +:+ "," +:+ "iVBORw0KGgo=")
  = ceilDiv4 (Js.length "iVBORw0KGgo=" * 3) - Js.count "=" "data:image/png;base64"
    - Js.count "=" "iVBORw0KGgo="
  /\ (Js.length "iVBORw0KGgo=" = 4 * 3 -> Js.count "=" "data:image/png;base64" = 0 ->
      getBase64Size ("data:image/png;base64" +:+ "," +:+ "iVBORw0KGgo=")
      = 3 * 3 - Js.count "=" "iVBORw0KGgo=").
Proof.
  apply (getBase64Size_of_data_url "data:image/png;base64" "iVBORw0KGgo=" 3).
  reflexivity.
Defined.

(** X13. Every payload of at most 6 990 506 characters is within the 5 MB
    limit, whatever it contains. *)
Theorem short_payload_is_within_limit (base64 : string) :
  Js.length base64 <= 6990506 -> isWithinSizeLimit base64 5 = true.
Proof.
  intros Hlen. destruct (isWithinSizeLimit base64 5) eqn:Hlimit; [done|].
  apply isWithinSizeLimit_spec in Hlimit. exfalso. revert Hlimit.
  unfold getBase64Size, Js.indexOf.
  pose proof (count_nonneg "=" base64).
  pose proof (indexOf_lower "," base64 0 ltac:(lia)).
  pose proof (ceilDiv4_bounds ((Js.length base64 - Js.indexOf_from "," base64 0 - 1) * 3)).
  lia.
Qed.

Lemma short_payload_is_within_limit_witness :
  isWithinSizeLimit Samples.jpeg 5 = true.
Proof.
  apply (short_payload_is_within_limit Samples.jpeg). vm_compute. discriminate.
Defined.

End DataUrlFacts.

(** ** Fetching the image: direct fetch and background proxy *)

Section FetchFacts.
Import Browser.

(** X14. The content script's direct fetch succeeds exactly when the response
    is 2xx and the body can be read, whatever its content type; the
    background script's fetch succeeds exactly when, in addition, the blob's
    type starts with "image/". So a resource the background accepts is one
    the direct fetch accepts when it gets the same response. *)
Theorem direct_fetch_ignores_content_type
        (env : ImageConverter.Env) (fetch : string -> Fetched Blob)
        (url base64 : string) :
  (ImageConverter.fetchImageAsBase64 env url = Ok base64
   <-> exists response type,
        ImageConverter.fetch env url
        = FetchResponds response (Ok (mkBlob type (Some base64)))
        /\ ok response = true)
  /\ (Background.fetchImageAsBase64 fetch (Background.VStr url) = Ok base64
      <-> exists response type,
           fetch url = FetchResponds response (Ok (mkBlob type (Some base64)))
           /\ ok response = true
           /\ Js.startsWith "image/" type = true).
Proof.
  split.
  - unfold ImageConverter.fetchImageAsBase64. split.
    + destruct (ImageConverter.fetch env url) as [e|response [[type [data|]]|e]];
        try done; destruct (ok response) eqn:Hok; try done.
      intros [= ->]. by exists response, type.
    + intros (response & type & -> & ->). reflexivity.
  - unfold Background.fetchImageAsBase64. split.
    + destruct (fetch url) as [e|response [[type [data|]]|e]];
        try done; destruct (ok response) eqn:Hok; cbn [blobType dataUrl negb];
        try destruct (Js.startsWith "image/" type) eqn:Htype; try done.
      intros [= ->]. by exists response, type.
    + intros (response & type & -> & -> & Htype). cbn [blobType dataUrl negb].
      by rewrite Htype.
Qed.

Example direct_fetch_accepts_html :
  ImageConverter.fetchImageAsBase64
    (ImageConverter.mkEnv
       (fun _ => ImageConverter.NoContext)
       (fun _ => FetchResponds (mkResponse 200 "OK")
                               (Ok (mkBlob "text/html" (Some "data:text/html;base64,PGh0bWw+"))))
       (fun _ => Ok None))
    "http://example.com/"
  = Ok "data:text/html;base64,PGh0bWw+".
Proof. reflexivity. Qed.

(** X15. When the background's [handleMessage] answers the request of
    [requestBackgroundConversion], the content script gets exactly what the
    background's [fetchImageAsBase64] produced: the same data URL on success,
    and on failure an [Error] carrying the same message (or "Background
    conversion failed" when that message is empty). The name of the original
    error is lost on the way. *)
Theorem proxy_conversion_end_to_end
        (env : ImageConverter.Env) (fetch : string -> Fetched Blob) (url : string) :
  url <> "" ->
  Messaging.delivers (Background.handleMessage fetch (Messaging.convertRequest url))
                     (ImageConverter.sendMessage env url) ->
  ImageConverter.requestBackgroundConversion env url
  = match Background.fetchImageAsBase64 fetch (Background.VStr url) with
    | Ok base64 => Ok base64
    | Throw e =>
        Throw (Error (if String.eqb (message e) "" then "Background conversion failed"
                      else message e))
    end.
Proof.
  intros Hurl. unfold Messaging.convertRequest, Background.handleMessage, Background.dispatch.
  remember (Background.fetchImageAsBase64 fetch (Background.VStr url)) as fetched.
  simpl. destruct (String.eqb_spec url "") as [|_]; [done|]. simpl.
  unfold ImageConverter.requestBackgroundConversion.
  destruct fetched as [base64|e]; inversion 1; reflexivity.
Qed.

Lemma proxy_conversion_end_to_end_witness :
  ImageConverter.requestBackgroundConversion
    (ImageConverter.mkEnv
       (fun _ => ImageConverter.NoContext) Samples.unreachable
       (fun _ => Ok (Some (ImageConverter.ProxyFail
                             "NetworkError when attempting to fetch resource."))))
    "http://example.com/cat.jpg"
  = match Background.fetchImageAsBase64 Samples.unreachable
                                        (Background.VStr "http://example.com/cat.jpg") with
    | Ok base64 => Ok base64
    | Throw e =>
        Throw (Error (if String.eqb (message e) "" then "Background conversion failed"
                      else message e))
    end.
Proof.
  apply (proxy_conversion_end_to_end
           (ImageConverter.mkEnv
              (fun _ => ImageConverter.NoContext) Samples.unreachable
              (fun _ => Ok (Some (ImageConverter.ProxyFail
                                    "NetworkError when attempting to fetch resource."))))
           Samples.unreachable "http://example.com/cat.jpg").
  - discriminate.
  - apply Messaging.deliver_failure.
Defined.

End FetchFacts.

(** ** The description client *)

Section ClientFacts.
Import Browser ApiClient RetryCost.

(** X16. [sendWithTimeout] returns a description exactly when the response
    is 2xx and its body is an object with a string [description]; and the
    error it throws is never the fetch's AbortError: an aborted request is
    always reported as "Request timeout". *)
Theorem sendWithTimeout_outcomes (fetched : Fetched Json) :
  (forall description,
      sendWithTimeout fetched = Ok description
      <-> exists response,
           fetched = FetchResponds response (Ok (JDescription description))
           /\ ok response = true)
  /\ (forall e, sendWithTimeout fetched = Throw e -> name e <> "AbortError")
  /\ (forall e, (fetched = FetchRejects e
                 \/ exists r, fetched = FetchResponds r (Throw e) /\ ok r = true) ->
                name e = "AbortError" ->
                sendWithTimeout fetched = Throw (Error "Request timeout")).
Proof.
  assert (forall (e e' : JsError), @rethrow string e = Throw e' -> name e' <> "AbortError")
    as Hrethrow.
  { intros e e'. unfold rethrow. destruct (String.eqb_spec (name e) "AbortError").
    - by intros [= <-].
    - by intros [= <-]. }
  repeat apply conj.
  - intros description. unfold sendWithTimeout, rethrow. split.
    + destruct fetched as [e|response [[| |d]|e]]; try destruct (ok response) eqn:Hok;
        simpl; try destruct (String.eqb (name e) "AbortError"); try done.
      intros [= ->]. by exists response.
    + intros (response & -> & ->). reflexivity.
  - intros e. unfold sendWithTimeout.
    destruct fetched as [e0|response [[| |d]|e0]]; try destruct (ok response);
      simpl; try done; apply Hrethrow.
  - intros e Hfrom Hname. unfold sendWithTimeout, rethrow.
    destruct Hfrom as [->|(r & -> & ->)]; simpl; by rewrite Hname.
Qed.

End ClientFacts.

Section RetryCostFacts.
Import Browser ApiClient RetryCost.

Lemma pow2_step a : (1 <= a)%nat -> 2 ^ Z.of_nat a = 2 * 2 ^ (Z.of_nat a - 1).
Proof.
  intros Ha. replace (Z.of_nat a) with (Z.succ (Z.of_nat a - 1)) at 1 by lia.
  rewrite Z.pow_succ_r by lia. reflexivity.
Qed.

Lemma retryLoop_cost env base64 maxRetries : forall fuel a lastError,
  (1 <= a)%nat ->
  (a + fuel = maxRetries + 1)%nat ->
  (attemptsMade (retryLoop env base64 maxRetries fuel a lastError).2 <= fuel)%nat
  /\ 0 <= sleptMs (retryLoop env base64 maxRetries fuel a lastError).2
  /\ ((1 <= fuel)%nat ->
      sleptMs (retryLoop env base64 maxRetries fuel a lastError).2
      + 1000 * 2 ^ (Z.of_nat a - 1)
      <= 1000 * 2 ^ (Z.of_nat maxRetries - 1)).
Proof.
  assert (forall a, (1 <= a <= maxRetries)%nat ->
                    1000 * 2 ^ (Z.of_nat a - 1) <= 1000 * 2 ^ (Z.of_nat maxRetries - 1))
    as Hmono.
  { intros a Ha. apply Z.mul_le_mono_nonneg_l; [lia|].
    apply Z.pow_le_mono_r; lia. }
  induction fuel as [|fuel IH]; intros a lastError Ha Hsum.
  - simpl. repeat apply conj; [lia | lia | lia].
  - rewrite retryLoop_step.
    destruct (attemptOnce env base64 a) as [d|e].
    { simpl. repeat apply conj; [lia | lia |]. intros _. specialize (Hmono a). lia. }
    destruct (dontRetry e).
    { simpl. repeat apply conj; [lia | lia |]. intros _. specialize (Hmono a). lia. }
    destruct (Nat.ltb_spec a maxRetries) as [Hlt|Hge].
    + destruct (IH (S a) (Some e)) as (Hn & Hpos & Hbound); [lia | lia |].
      destruct (retryLoop env base64 maxRetries fuel (S a) (Some e)) as [result events].
      simpl in *. repeat apply conj; [lia | unfold waitTime; lia |]. intros _.
      specialize (Hbound ltac:(lia)). unfold waitTime.
      replace (Z.of_nat (S a) - 1) with (Z.of_nat a) in Hbound by lia.
      rewrite (pow2_step a Ha) in Hbound. lia.
    + assert (fuel = 0%nat) as -> by lia. assert (a = maxRetries) as -> by lia.
      simpl. repeat apply conj; [lia | lia | lia].
Qed.

(** X17. Whatever the service and the payload do, one [sendImageToAPI] call
    makes at most [maxRetries] attempts and sleeps at most
    [1000 * (2^(maxRetries-1) - 1)] ms in total between them: with the default
    of three attempts, at most 3000 ms of backoff. *)
Theorem retry_cost_is_bounded (env : Env) (base64 : string) (maxRetries : nat) :
  (attemptsMade (sendImageToAPI env base64 maxRetries).2 <= maxRetries)%nat
  /\ 0 <= sleptMs (sendImageToAPI env base64 maxRetries).2
  /\ ((1 <= maxRetries)%nat ->
      sleptMs (sendImageToAPI env base64 maxRetries).2
      <= 1000 * (2 ^ (Z.of_nat maxRetries - 1) - 1))
  /\ sleptMs (sendImageToAPI env base64 MAX_RETRIES).2 <= 3000.
Proof.
  unfold sendImageToAPI.
  destruct (retryLoop_cost env base64 maxRetries maxRetries 1 None) as (Hn & Hpos & Hb);
    [lia | lia |].
  destruct (retryLoop_cost env base64 MAX_RETRIES MAX_RETRIES 1 None) as (_ & _ & Hb3);
    [lia | unfold MAX_RETRIES; lia |].
  repeat apply conj; [done | done | |].
  - intros Hone. specialize (Hb Hone).
    change (2 ^ (Z.of_nat 1 - 1)) with 1 in Hb. lia.
  - specialize (Hb3 ltac:(unfold MAX_RETRIES; lia)).
    change (2 ^ (Z.of_nat 1 - 1)) with 1 in Hb3.
    change (2 ^ (Z.of_nat MAX_RETRIES - 1)) with 4 in Hb3. lia.
Qed.

Lemma mimeMatch_without_colon s : Js.count ":" s = 0 -> ImageConverter.mimeMatch s = None.
Proof.
  induction s as [|a s IH]; [done|].
  intros [Hne Hs]%count_cons_zero. simpl. by rewrite Hne, (IH Hs).
Qed.

(** X18. A payload [base64ToBlob] cannot read never reaches the service, but
    the two errors fare differently in the retry loop. Without exactly one
    comma the error is "Invalid base64 format" and the call fails at once,
    after one attempt and no sleep. With a header that contains no colon the
    error is "Could not extract MIME type", which is retried: every attempt
    fails the same way, all backoff sleeps are spent, and the call ends with
    "API failed after <n> attempts: Could not extract MIME type". *)
Theorem unreadable_payload_and_retries
        (env : Env) (maxRetries : nat) :
  (1 <= maxRetries)%nat ->
  (forall base64,
      Js.count "," base64 <> 1 ->
      sendImageToAPI env base64 maxRetries
      = (Throw (Error "Invalid base64 format"), [Attempt 1]))
  /\ (forall header data,
        Js.count "," header = 0 -> Js.count ":" header = 0 -> Js.count "," data = 0 ->
        sendImageToAPI env (header +:+ "," +:+ data) maxRetries
        = (Throw (Error ("API failed after " +:+ Js.decimal (N.of_nat maxRetries)
                           +:+ " attempts: Could not extract MIME type")),
           failedAttempts 1 (maxRetries - 1) ++ [Attempt maxRetries])).
Proof.
  intros Hone. split.
  - intros base64 Hcomma. unfold sendImageToAPI.
    destruct maxRetries as [|n]; [lia|]. rewrite retryLoop_step. unfold attemptOnce.
    pose proof (length_split "," base64) as Hlen. unfold ImageConverter.base64ToBlob.
    destruct (ImageConverter.split "," base64) as [|x [|y [|z l]]]; simpl in Hlen; try done.
    lia.
  - intros header data Hheader Hcolon Hdata.
    assert (forall i, attemptOnce env (header +:+ "," +:+ data) i
                      = Throw (Error "Could not extract MIME type")) as Hattempt.
    { intros i. unfold attemptOnce, ImageConverter.base64ToBlob.
      change (header +:+ "," +:+ data) with (header +:+ String "," data).
      rewrite split_at_first, split_without by done.
      by rewrite mimeMatch_without_colon. }
    unfold sendImageToAPI.
    rewrite (retryLoop_exhausted env _ maxRetries (Error "Could not extract MIME type")
               (Hattempt _) eq_refl (maxRetries - 1) 1); [reflexivity | lia | lia |].
    intros i _. eexists. split; [apply Hattempt | reflexivity].
Qed.

Lemma unreadable_payload_and_retries_witness :
  (forall base64,
      Js.count "," base64 <> 1 ->
      sendImageToAPI Samples.flaky base64 3
      = (Throw (Error "Invalid base64 format"), [Attempt 1]))
  /\ (forall header data,
        Js.count "," header = 0 -> Js.count ":" header = 0 -> Js.count "," data = 0 ->
        sendImageToAPI Samples.flaky (header +:+ "," +:+ data) 3
        = (Throw (Error ("API failed after " +:+ Js.decimal (N.of_nat 3)
                           +:+ " attempts: Could not extract MIME type")),
           failedAttempts 1 (3 - 1) ++ [Attempt 3%nat])).
Proof.
  apply (unreadable_payload_and_retries Samples.flaky 3). lia.
Defined.

(** A data URL that lost its "data:" prefix. *)
Example send_without_scheme :
  sendImageToAPI Samples.flaky "image/jpeg;base64,AAAA" MAX_RETRIES
  = (Throw (Error "API failed after 3 attempts: Could not extract MIME type"),
     [Attempt 1; Sleep 1000; Attempt 2; Sleep 2000; Attempt 3]).
Proof. vm_compute. reflexivity. Qed.

End RetryCostFacts.

(** ** The request queue: slots, wake-ups and clear() *)

Section QueueSlots.
Import ApiClient QueueRun.

Ltac queue_step_cases Hstep :=
  match type of Hstep with
  | step ?w ?a = Some _ =>
      let entry := fresh "entry" in
      let succeeded := fresh "succeeded" in
      let after := fresh "after" in
      let ms := fresh "ms" in
      destruct a as [|entry succeeded|after|ms|]; simpl in Hstep;
      [ unfold add in Hstep;
        match type of Hstep with
        | context [process ?q] =>
            destruct (process_cases q)
              as [[Hp Hwhy]|(head & rest & Hq & Hroom & Hp)];
            rewrite Hp in Hstep
        end
      | destruct (takeOut entry (awaiting w)) as [others|] eqn:Htake;
        [|discriminate Hstep];
        destruct (resume_cases (rq w) succeeded) as [[Hne Hr]|[Hempty Hr]];
        rewrite Hr in Hstep
      | destruct (takeSleeper after (sleeping w)) as [[due others]|] eqn:Htake;
        [|discriminate Hstep];
        destruct (Z.leb_spec due (clock w)) as [Hdue|]; [|discriminate Hstep];
        destruct (process_cases (rq w))
          as [[Hp Hwhy]|(head & rest & Hq & Hroom & Hp)];
        rewrite Hp in Hstep
      | destruct (Z.ltb_spec 0 ms); [|discriminate Hstep]
      | ];
      injection Hstep as <-
  end.

Lemma takeSleeper_length x l due others :
  takeSleeper x l = Some (due, others) -> length l = S (length others).
Proof.
  revert due others. induction l as [|[y d] l IH]; intros due others; simpl; [done|].
  destruct (decide (x = y)); [by intros [= <- <-]|].
  destruct (takeSleeper x l) as [[d' rest]|]; simpl; [|done].
  intros [= <- <-]. simpl. by rewrite (IH d' rest).
Qed.

Record SlotInv (c : Z) (w : World) : Prop := {
  slot_width : concurrency (rq w) = c;
  slot_active : active (rq w) = Z.of_nat (length (awaiting w));
  slot_bound : active (rq w) <= Z.max c 0;
  slot_wakeups :
    Z.min (Z.of_nat (length (queue (rq w)))) (c - active (rq w))
    <= Z.of_nat (length (sleeping w))
}.

Lemma SlotInv_init c d : SlotInv c (init c d).
Proof. split; simpl; lia. Qed.

Lemma SlotInv_step c w a w' : SlotInv c w -> step w a = Some w' -> SlotInv c w'.
Proof.
  intros [Hc Ha Hb Hw] Hstep. queue_step_cases Hstep; simpl in *;
    try (apply takeOut_length in Htake);
    try (apply takeSleeper_length in Htake);
    try (rewrite Hq in * );
    try (rewrite Hempty in * );
    split; simpl; rewrite ?length_app; simpl in *;
    try (destruct Hwhy as [Hwhy|Hwhy]; [|try rewrite Hwhy in *; simpl in * ]);
    try (apply (f_equal (@length nat)) in Hq; rewrite ?length_app in Hq; simpl in Hq);
    try (apply (f_equal (@length nat)) in Hwhy; rewrite ?length_app in Hwhy; simpl in Hwhy);
    try (rewrite Hempty; simpl);
    lia.
Qed.

Lemma SlotInv_run c d actions w :
  run (init c d) actions = Some w -> SlotInv c w.
Proof.
  apply (run_invariant (fun _ => true) (SlotInv c)).
  - intros w0 a w1 _. apply SlotInv_step.
  - apply forallb_always.
  - apply SlotInv_init.
Qed.

(** A queue of width zero or less starts nothing. *)
Lemma zero_width_never_starts c w a w' :
  c <= 0 -> SlotInv c w /\ startOrder (trace w) = [] -> step w a = Some w' ->
  SlotInv c w' /\ startOrder (trace w') = [].
Proof.
  intros Hzero [Hslot Hnone] Hstep. split; [by apply (SlotInv_step c w a)|].
  destruct Hslot as [Hc Ha Hb _].
  queue_step_cases Hstep; simpl in *; rewrite ?startOrder_app; simpl;
    rewrite ?app_nil_r; try done; lia.
Qed.

(** X19. The queue never runs more tasks at once than its width: in every
    reachable state the number of [process()] calls awaiting their task, which
    is what the [active] counter holds, is at most [concurrency] (and zero for
    a width of zero or less, where nothing is ever started). *)
Theorem concurrency_is_bounded (c delay : Z) (actions : list Action) (w : World) :
  run (init c delay) actions = Some w ->
  active (rq w) = Z.of_nat (length (awaiting w))
  /\ Z.of_nat (length (awaiting w)) <= Z.max c 0
  /\ (c <= 0 -> startOrder (trace w) = []).
Proof.
  intros Hrun. destruct (SlotInv_run c delay actions w Hrun) as [Hc Ha Hb Hw].
  repeat apply conj; [done | lia |].
  intros Hzero.
  apply (run_invariant (fun _ => true)
           (fun w => SlotInv c w /\ startOrder (trace w) = [])
           (fun w0 a w1 _ => zero_width_never_starts c w0 a w1 Hzero)
           actions (init c delay) w (forallb_always _)
           (conj (SlotInv_init c delay) eq_refl) Hrun).
Qed.

Lemma concurrency_is_bounded_witness :
  active (rq Samples.burstWorld) = Z.of_nat (length (awaiting Samples.burstWorld))
  /\ Z.of_nat (length (awaiting Samples.burstWorld)) <= Z.max 3 0
  /\ (3 <= 0 -> startOrder (trace Samples.burstWorld) = []).
Proof.
  apply (concurrency_is_bounded 3 500 Samples.burstActions Samples.burstWorld).
  reflexivity.
Defined.

(** X20. No wake-up is lost: in every reachable state there are at least as
    many [process()] calls sleeping on the pacing timer as there are free
    slots that pending entries could use. In particular, when entries are
    pending, either every slot is busy or some sleeping call will run
    [process()] again. *)
Theorem pending_work_has_a_wakeup (c delay : Z) (actions : list Action) (w : World) :
  run (init c delay) actions = Some w ->
  Z.min (Z.of_nat (length (queue (rq w)))) (c - Z.of_nat (length (awaiting w)))
  <= Z.of_nat (length (sleeping w))
  /\ (queue (rq w) <> [] ->
      c <= Z.of_nat (length (awaiting w)) \/ sleeping w <> []).
Proof.
  intros Hrun. destruct (SlotInv_run c delay actions w Hrun) as [Hc Ha Hb Hw].
  rewrite Ha in Hw. split; [exact Hw|]. intros Hq.
  destruct (Z_le_gt_dec c (Z.of_nat (length (awaiting w)))) as [|Hfree]; [by left|].
  right. destruct (sleeping w); [|done]. destruct (queue (rq w)); [done|].
  simpl in Hw. lia.
Qed.

Lemma pending_work_has_a_wakeup_witness :
  Z.min (Z.of_nat (length (queue (rq Samples.lateAddWorld))))
        (1 - Z.of_nat (length (awaiting Samples.lateAddWorld)))
  <= Z.of_nat (length (sleeping Samples.lateAddWorld))
  /\ (queue (rq Samples.lateAddWorld) <> [] ->
      1 <= Z.of_nat (length (awaiting Samples.lateAddWorld))
      \/ sleeping Samples.lateAddWorld <> []).
Proof.
  apply (pending_work_has_a_wakeup 1 500 Samples.lateAddActions Samples.lateAddWorld).
  reflexivity.
Defined.

End QueueSlots.

Section QueueAccounting.
Import ApiClient QueueRun.

Ltac queue_step_cases Hstep :=
  match type of Hstep with
  | step ?w ?a = Some _ =>
      let entry := fresh "entry" in
      let succeeded := fresh "succeeded" in
      let after := fresh "after" in
      let ms := fresh "ms" in
      destruct a as [|entry succeeded|after|ms|]; simpl in Hstep;
      [ unfold add in Hstep;
        match type of Hstep with
        | context [process ?q] =>
            destruct (process_cases q)
              as [[Hp Hwhy]|(head & rest & Hq & Hroom & Hp)];
            rewrite Hp in Hstep
        end
      | destruct (takeOut entry (awaiting w)) as [others|] eqn:Htake;
        [|discriminate Hstep];
        destruct (resume_cases (rq w) succeeded) as [[Hne Hr]|[Hempty Hr]];
        rewrite Hr in Hstep
      | destruct (takeSleeper after (sleeping w)) as [[due others]|] eqn:Htake;
        [|discriminate Hstep];
        destruct (Z.leb_spec due (clock w)) as [Hdue|]; [|discriminate Hstep];
        destruct (process_cases (rq w))
          as [[Hp Hwhy]|(head & rest & Hq & Hroom & Hp)];
        rewrite Hp in Hstep
      | destruct (Z.ltb_spec 0 ms); [|discriminate Hstep]
      | ];
      injection Hstep as <-
  end.

(** What [getStats] would add up to. *)
Definition accounted (q : RequestQueue) : Z :=
  stat_success (getStats q) + stat_failed (getStats q)
  + stat_active (getStats q) + stat_queued (getStats q).

Lemma accounted_step w a w' :
  step w a = Some w' ->
  (accounted (rq w) <= stat_total (getStats (rq w)) ->
   accounted (rq w') <= stat_total (getStats (rq w')))
  /\ (isClear a = false ->
      accounted (rq w) = stat_total (getStats (rq w)) ->
      accounted (rq w') = stat_total (getStats (rq w'))).
Proof.
  intros Hstep. unfold accounted, getStats.
  queue_step_cases Hstep; simpl in *;
    try (apply (f_equal (@length nat)) in Hq; rewrite ?length_app in Hq; simpl in Hq);
    rewrite ?length_app; simpl; try (destruct succeeded; simpl);
    (split; [|intros Hclear; try discriminate Hclear]); lia.
Qed.

(** X21. Every submitted task is accounted for once: in a run without
    [clear()], [total] always equals [success + failed + active + queued] as
    [getStats()] reports them; [clear()] only makes the sum fall short of
    [total], by the entries it discarded. *)
Theorem stats_account_for_every_task
        (c delay : Z) (actions : list Action) (w : World) :
  run (init c delay) actions = Some w ->
  accounted (rq w) <= stat_total (getStats (rq w))
  /\ (forallb (fun a => negb (isClear a)) actions = true ->
      stat_total (getStats (rq w))
      = stat_success (getStats (rq w)) + stat_failed (getStats (rq w))
        + stat_active (getStats (rq w)) + stat_queued (getStats (rq w))).
Proof.
  intros Hrun. split.
  - apply (run_invariant (fun _ => true)
             (fun w => accounted (rq w) <= stat_total (getStats (rq w)))
             (fun w0 a w1 _ Hle Hs => proj1 (accounted_step w0 a w1 Hs) Hle)
             actions (init c delay) w (forallb_always _)); [done | exact Hrun].
  - intros Hall. symmetry.
    apply (run_invariant (fun a => negb (isClear a))
             (fun w => accounted (rq w) = stat_total (getStats (rq w)))
             (fun w0 a w1 Ha Heq Hs =>
                proj2 (accounted_step w0 a w1 Hs)
                      (proj1 (negb_true_iff _) Ha) Heq)
             actions (init c delay) w Hall); [done | exact Hrun].
Qed.

Lemma stats_account_for_every_task_witness :
  accounted (rq Samples.burstWorld) <= stat_total (getStats (rq Samples.burstWorld))
  /\ (forallb (fun a => negb (isClear a)) Samples.burstActions = true ->
      stat_total (getStats (rq Samples.burstWorld))
      = stat_success (getStats (rq Samples.burstWorld))
        + stat_failed (getStats (rq Samples.burstWorld))
        + stat_active (getStats (rq Samples.burstWorld))
        + stat_queued (getStats (rq Samples.burstWorld))).
Proof.
  apply (stats_account_for_every_task 3 500 Samples.burstActions Samples.burstWorld).
  reflexivity.
Defined.

End QueueAccounting.

Section QueueClear.
Import ApiClient QueueRun.

Ltac queue_step_cases Hstep :=
  match type of Hstep with
  | step ?w ?a = Some _ =>
      let entry := fresh "entry" in
      let succeeded := fresh "succeeded" in
      let after := fresh "after" in
      let ms := fresh "ms" in
      destruct a as [|entry succeeded|after|ms|]; simpl in Hstep;
      [ unfold add in Hstep;
        match type of Hstep with
        | context [process ?q] =>
            destruct (process_cases q)
              as [[Hp Hwhy]|(head & rest & Hq & Hroom & Hp)];
            rewrite Hp in Hstep
        end
      | destruct (takeOut entry (awaiting w)) as [others|] eqn:Htake;
        [|discriminate Hstep];
        destruct (resume_cases (rq w) succeeded) as [[Hne Hr]|[Hempty Hr]];
        rewrite Hr in Hstep
      | destruct (takeSleeper after (sleeping w)) as [[due others]|] eqn:Htake;
        [|discriminate Hstep];
        destruct (Z.leb_spec due (clock w)) as [Hdue|]; [|discriminate Hstep];
        destruct (process_cases (rq w))
          as [[Hp Hwhy]|(head & rest & Hq & Hroom & Hp)];
        rewrite Hp in Hstep
      | destruct (Z.ltb_spec 0 ms); [|discriminate Hstep]
      | ];
      injection Hstep as <-
  end.

Lemma takeOut_sub x l l' :
  takeOut x l = Some l' -> x ∈ l /\ forall y, y ∈ l' -> y ∈ l.
Proof.
  revert l'. induction l as [|z l IH]; intros l'; simpl; [done|].
  destruct (decide (x = z)) as [->|Hne].
  - intros [= <-]. split; [left | intros y Hy; by right].
  - destruct (takeOut x l) as [l0|]; simpl; [|done].
    intros [= <-]. destruct (IH l0 eq_refl) as [Hx Hsub]. split; [by right|].
    intros y [->|Hy]%elem_of_cons; [left | right; by apply Hsub].
Qed.

(** Where the entries of a run are: a pending entry has been submitted and has
    not started, the queue holds no entry twice, and only started entries run
    or have settled. *)
Record PlacedInv (w : World) : Prop := {
  placed_pending : forall e, e ∈ queue (rq w) ->
                             (e < issued w)%nat /\ (e ∉ startOrder (trace w));
  placed_once : NoDup (queue (rq w));
  placed_running : forall e, e ∈ awaiting w -> e ∈ startOrder (trace w);
  placed_settled : forall time e succeeded pending,
      (time, Settled e succeeded pending) ∈ trace w -> e ∈ startOrder (trace w);
  placed_started : forall e, e ∈ startOrder (trace w) -> (e < issued w)%nat
}.

(** An entry that was submitted and is neither pending nor started. *)
Definition discarded (e : nat) (w : World) : Prop :=
  (e < issued w)%nat /\ (e ∉ queue (rq w)) /\ (e ∉ startOrder (trace w)).

Lemma PlacedInv_init c delay : PlacedInv (init c delay).
Proof.
  split; simpl.
  - intros e He. by apply elem_of_nil in He.
  - apply NoDup_nil_2.
  - intros e He. by apply elem_of_nil in He.
  - intros time e s p He. by apply elem_of_nil in He.
  - intros e He. by apply elem_of_nil in He.
Qed.

Lemma queue_with_new w :
  PlacedInv w -> NoDup (queue (rq w) ++ [issued w]).
Proof.
  intros Hinv. apply NoDup_app. split; [apply Hinv|]. split.
  - intros e He ->%list_elem_of_singleton.
    destruct (placed_pending w Hinv _ He). lia.
  - apply NoDup_singleton.
Qed.

Lemma PlacedInv_step w a w' :
  PlacedInv w -> step w a = Some w' -> PlacedInv w'.
Proof.
  intros Hinv Hstep.
  pose proof (queue_with_new w Hinv) as Hnew.
  destruct Hinv as [Hpend Honce Hrun Hset Hlt].
  queue_step_cases Hstep; simpl in *;
    first
      [ assert (Hmem : forall e, e ∈ queue (rq w) ++ [issued w] <-> e ∈ head :: rest)
          by (intros e0; by rewrite Hq);
        rewrite Hq in Hnew; apply NoDup_cons in Hnew as [Hhead Hrest]
      | clear Hnew; rewrite Hq in Hpend; rewrite Hq in Honce;
        apply NoDup_cons in Honce as [Hhead Hrest]
      | idtac ];
    try (apply takeOut_sub in Htake as [Hentry Hothers]);
    split; simpl; rewrite ?startOrder_app; simpl; rewrite ?app_nil_r;
    try done; try apply NoDup_nil_2.
  all: try lazymatch goal with
           | Hmem : (forall e, _ <-> _) |- forall e, e ∈ _ -> _ /\ _ => idtac
           | _ => set_unfold; naive_solver lia
           end.
  intros e He.
  assert (Hne : e <> head) by (intros ->; done).
  assert (He' : e ∈ queue (rq w) ++ [issued w]) by (apply Hmem; by right).
  apply elem_of_app in He' as [Hin| ->%list_elem_of_singleton].
  - destruct (Hpend e Hin) as [Hlow Hnot]. split; [lia|].
    intros [Hs| ->%list_elem_of_singleton]%elem_of_app; done.
  - split; [lia|].
    intros [Hs| Hs%list_elem_of_singleton]%elem_of_app; [|done].
    apply Hlt in Hs. lia.
Qed.

Lemma discarded_step e w a w' :
  discarded e w -> step w a = Some w' -> discarded e w'.
Proof.
  intros (Hlow & Hq0 & Hs0) Hstep. unfold discarded.
  queue_step_cases Hstep; simpl in *;
    first
      [ assert (Hmem : forall e, e ∈ queue (rq w) ++ [issued w] <-> e ∈ head :: rest)
          by (intros e0; by rewrite Hq)
      | rewrite Hq in Hq0
      | idtac ];
    rewrite ?startOrder_app; simpl; rewrite ?app_nil_r;
    set_unfold; naive_solver lia.
Qed.

(** X22. [clear()] abandons the pending tasks for good: an entry that is in
    the queue when [clear()] runs is never started afterwards, whatever is
    added, settles or wakes later, so its task is not called and the promise
    that [add] returned for it is neither resolved nor rejected. *)
Theorem clear_abandons_pending_tasks
        (c delay : Z) (before after : list Action) (w0 w : World) (e : nat) :
  run (init c delay) before = Some w0 ->
  e ∈ queue (rq w0) ->
  run w0 (Clear :: after) = Some w ->
  (e ∉ startOrder (trace w))
  /\ (e ∉ awaiting w)
  /\ (e ∉ queue (rq w))
  /\ (forall time succeeded pending,
        (time, Settled e succeeded pending) ∉ trace w).
Proof.
  intros Hbefore He Hafter.
  assert (Hplaced : PlacedInv w0).
  { apply (run_invariant (fun _ => true) PlacedInv
             (fun w1 a w2 _ Hinv Hs => PlacedInv_step w1 a w2 Hinv Hs)
             before (init c delay) w0 (forallb_always _)
             (PlacedInv_init c delay) Hbefore). }
  simpl in Hafter.
  set (w1 := mkWorld (clear (rq w0)) (clock w0) (awaiting w0) (sleeping w0)
                     (issued w0) (trace w0)) in Hafter.
  assert (Hstart : PlacedInv w1 /\ discarded e w1).
  { split.
    - apply (PlacedInv_step w0 Clear); [done | reflexivity].
    - destruct (placed_pending w0 Hplaced e He) as [Hlow Hnot].
      split; [done|]. split; [|done]. simpl. apply not_elem_of_nil. }
  destruct (run_invariant (fun _ => true)
              (fun w => PlacedInv w /\ discarded e w)
              (fun w2 a w3 _ Hinv Hs =>
                 conj (PlacedInv_step w2 a w3 (proj1 Hinv) Hs)
                      (discarded_step e w2 a w3 (proj2 Hinv) Hs))
              after w1 w (forallb_always _) Hstart Hafter)
    as [Hinv (Hlow & Hq & Hs)].
  split; [done|]. split; [|split; [done|]].
  - intros Hrun. by apply Hs, (placed_running w Hinv).
  - intros time succeeded pending Hin. by apply Hs, (placed_settled w Hinv _ _ _ _ Hin).
Qed.

Lemma clear_abandons_pending_tasks_witness :
  (3%nat ∉ startOrder (trace Cases.clearedWorld))
  /\ (3%nat ∉ awaiting Cases.clearedWorld)
  /\ (3%nat ∉ queue (rq Cases.clearedWorld))
  /\ (forall time succeeded pending,
        (time, Settled 3%nat succeeded pending) ∉ trace Cases.clearedWorld).
Proof.
  apply (clear_abandons_pending_tasks 3 500 Cases.fullActions Cases.afterClear
           Cases.fullWorld Cases.clearedWorld 3%nat).
  - reflexivity.
  - apply list_elem_of_singleton. reflexivity.
  - reflexivity.
Defined.

(** The run of the witness: task 4, submitted after the [clear()], starts and
    settles while task 3 is in no list of the final state. *)
Example cleared_run :
  run Cases.fullWorld (Clear :: Cases.afterClear) = Some Cases.clearedWorld
  /\ queue (rq Cases.fullWorld) = [3%nat]
  /\ startOrder (trace Cases.clearedWorld) = [0; 1; 2; 4]%nat
  /\ stat_total (getStats (rq Cases.clearedWorld)) = 5
  /\ stat_success (getStats (rq Cases.clearedWorld)) = 3
  /\ stat_failed (getStats (rq Cases.clearedWorld)) = 1
  /\ stat_active (getStats (rq Cases.clearedWorld)) = 0
  /\ stat_queued (getStats (rq Cases.clearedWorld)) = 0.
Proof. repeat apply conj; reflexivity. Qed.

End QueueClear.
